(** * The kqueue I/O manager of trio: [trio/_core/_io_kqueue.py]

    A shallow embedding of [KqueueIOManager] and proofs about its
    registration table, its drain loop [handle_io], and the two front ends
    [wait_kevent] and [monitor_kevent].

    Python objects that the manager only holds by reference (tasks, queues)
    are identifiers; the dict [_registered] is a [gmap]; every method is a
    state transformer over the manager's fields, returning either a value or
    the exception it raises.  Calls into collaborators (the kernel queue, the
    scheduler, the unbounded queues) are recorded, in order, in a trace. *)

From Stdlib Require Import Qcanon.
From stdpp Require Import base gmap list strings pretty fin_maps.

Local Open Scope Z_scope.

(** ** Kernel events: [select.kevent] *)

Record kevent := Kevent {
  ident : Z;
  filter : Z;
  flags : Z;
  fflags : Z;
  data : Z;
  udata : Z
}.

#[global] Instance kevent_eq_dec : EqDecision kevent.
Proof. solve_decision. Defined.

(** [select.kevent(ident, filter, flags)]: the remaining fields default to 0. *)
Definition select_kevent (ident filter flags : Z) : kevent :=
  Kevent ident filter flags 0 0 0.

(** Constants of the [select] module, with their values in <sys/event.h>. *)
Definition KQ_FILTER_READ : Z := -1.
Definition KQ_FILTER_WRITE : Z := -2.
Definition KQ_EV_ADD : Z := 1.
Definition KQ_EV_DELETE : Z := 2.
Definition KQ_EV_ONESHOT : Z := 16.

(** ** Keys, receivers, exceptions *)

(** The dict key [(ident, filter)]. *)
Abbreviation Key := (Z * Z)%type.

Definition key_of (event : kevent) : Key := (ident event, filter event).

(** Tasks and queues are Python objects compared by identity. *)
Definition TaskId := nat.
Definition QueueId := nat.

(** A value of the dict: a [_core.Task] or an [_core.UnboundedQueue]. *)
Inductive Receiver :=
| Task (t : TaskId)
| Queue (q : QueueId).

#[global] Instance Receiver_eq_dec : EqDecision Receiver.
Proof. solve_decision. Defined.

(** [type(receiver) is _core.Task] *)
Definition is_task (receiver : Receiver) : bool :=
  match receiver with Task _ => true | Queue _ => false end.

(** [_core.Abort] *)
Inductive Abort := SUCCEEDED | FAILED.

#[global] Instance Abort_eq_dec : EqDecision Abort.
Proof. solve_decision. Defined.

(** The exceptions the manager raises: [RuntimeError(msg)] from the two
    registration methods, [KeyError(key)] from a failed dict subscript or
    [del]. *)
Inductive exn :=
| RuntimeError (msg : string)
| KeyError (key : Key).

#[global] Instance exn_eq_dec : EqDecision exn.
Proof. solve_decision. Defined.

Inductive outcome (A : Type) :=
| Return (a : A)
| Raise (e : exn).
Arguments Return {A} a.
Arguments Raise {A} e.

(** The timeout argument of [kqueue.control]: [None] or a number of seconds. *)
Abbreviation Timeout := (option Qc).

(** The literal [0] assigned to [timeout] in the drain loop. *)
Definition timeout_0 : Timeout := Some 0%Qc.

(** ** The message of an exception *)

(** [repr] of a tuple of two ints, which is how [str(KeyError(key))] prints. *)
Definition repr_key (key : Key) : string :=
  ("(" +:+ pretty key.1 +:+ ", " +:+ pretty key.2 +:+ ")")%string.

(** [str(e)] *)
Definition message (e : exn) : string :=
  match e with
  | RuntimeError msg => msg
  | KeyError key => repr_key key
  end.

Fixpoint prefixb (p s : string) : bool :=
  match p, s with
  | EmptyString, _ => true
  | String a p', String b s' => if Ascii.eqb a b then prefixb p' s' else false
  | String _ _, EmptyString => false
  end.

(** [p in s] on Python strings. *)
Fixpoint infixb (p s : string) : bool :=
  prefixb p s ||
  match s with
  | EmptyString => false
  | String _ s' => infixb p s'
  end.

(** A message carries a key when the decimal forms of the key's [ident] and
    of its [filter] both occur in it. *)
Definition carries_key (e : exn) (key : Key) : Prop :=
  infixb (pretty key.1) (message e) && infixb (pretty key.2) (message e) = true.

(** ** The kernel queue: [select.kqueue] *)

(** The kernel side is an interface: [control kq changelist max_events timeout]
    is one call of [kq.control], giving the kernel queue afterwards and the
    batch of events it returned. *)
Class Kqueue (K : Type) := {
  control : K → list kevent → nat → Timeout → K * list kevent
}.

(** A kernel queue that holds a list of ready events and hands out at most
    [max_events] of them per call, oldest first; change lists are accepted and
    have no effect on what is ready. *)
Record fifo_kqueue := FifoKqueue { ready : list kevent }.

#[global] Instance fifo_Kqueue : Kqueue fifo_kqueue := {
  control kq changelist max_events timeout :=
    (FifoKqueue (drop max_events (ready kq)), take max_events (ready kq))
}.

(** ** Calls into collaborators, in program order *)

Inductive action :=
| AControl (changelist : list kevent) (max_events : nat) (timeout : Timeout)
    (batch : list kevent)                  (* [self._kqueue.control(...)] *)
| ASetItem (key : Key) (receiver : Receiver) (* [self._registered[key] = ...] *)
| ADelItem (key : Key)                     (* [del self._registered[key]] *)
| AReschedule (t : TaskId) (event : kevent) (* [_core.reschedule(t, Value(event))] *)
| APutNowait (q : QueueId) (event : kevent) (* [q.put_nowait(event)] *)
| ANewQueue (q : QueueId).                 (* [_core.UnboundedQueue()] *)

#[global] Instance action_eq_dec : EqDecision action.
Proof. solve_decision. Defined.

(** ** The manager's state *)

(** The two attributes of [KqueueIOManager], the scheduler's running task
    (what [_core.current_task()] reads), the supply of queue identities, and
    the trace. *)
Record State (K : Type) := MkState {
  _kqueue : K;
  _registered : gmap Key Receiver;
  running : TaskId;
  next_queue : QueueId;
  trace : list action
}.
Arguments MkState {K}.
Arguments _kqueue {K}.
Arguments _registered {K}.
Arguments running {K}.
Arguments next_queue {K}.
Arguments trace {K}.

(** [_KqueueStatistics] *)
Record _KqueueStatistics := Mk_KqueueStatistics {
  tasks_waiting : nat;
  monitors : nat;
  backend : string
}.

(** [attr.ib(default="kqueue")] *)
Definition new_KqueueStatistics (tasks_waiting monitors : nat) : _KqueueStatistics :=
  Mk_KqueueStatistics tasks_waiting monitors "kqueue".

(** The argument of [wait_readable] and [wait_writable]: an int, or an object
    with a [fileno()] method (given by what the method returns). *)
Inductive fd_arg :=
| FdInt (fd : Z)
| FdObject (fileno : Z).

Section Manager.
Context {K : Type} `{!Kqueue K}.
(** The token the scheduler passes to an abort callback. *)
Context {RaiseCancel : Type}.

(** A method body: runs on the state and returns or raises. *)
Definition M (A : Type) : Type := State K → State K * outcome A.

Definition ret {A} (a : A) : M A := λ st, (st, Return a).
Definition raise {A} (e : exn) : M A := λ st, (st, Raise e).
Definition bind {A B} (m : M A) (k : A → M B) : M B := λ st,
  match m st with
  | (st', Return a) => k a st'
  | (st', Raise e) => (st', Raise e)
  end.

Notation "'let*' x ':=' m 'in' k" := (bind m (λ x, k))
  (at level 10, x name, m at level 100, k at level 200).
Notation "'do' m 'in' k" := (bind m (λ _, k))
  (at level 10, m at level 100, k at level 200).

(** [for x in l: body(x)] *)
Fixpoint for_each {A} (l : list A) (body : A → M unit) : M unit :=
  match l with
  | [] => ret tt
  | x :: l' => do body x in for_each l' body
  end.

(** [try: body finally: final]: [final] always runs; if it raises, its
    exception is the one that propagates. *)
Definition try_finally {A} (body : M A) (final : M unit) : M A := λ st,
  let '(st1, out) := body st in
  match final st1 with
  | (st2, Return _) => (st2, out)
  | (st2, Raise e) => (st2, Raise e)
  end.

Definition log (a : action) (st : State K) : State K :=
  MkState (_kqueue st) (_registered st) (running st) (next_queue st)
    (trace st ++ [a]).

(** *** The dict [self._registered] *)

(** [key in self._registered] *)
Definition contains (key : Key) : M bool := λ st,
  (st, Return (bool_decide (is_Some (_registered st !! key)))).

(** [self._registered[key]] *)
Definition getitem (key : Key) : M Receiver := λ st,
  match _registered st !! key with
  | Some receiver => (st, Return receiver)
  | None => (st, Raise (KeyError key))
  end.

(** [self._registered[key] = receiver] *)
Definition setitem (key : Key) (receiver : Receiver) : M unit := λ st,
  (log (ASetItem key receiver)
     (MkState (_kqueue st) (<[key := receiver]> (_registered st))
        (running st) (next_queue st) (trace st)),
   Return tt).

(** [del self._registered[key]] *)
Definition delitem (key : Key) : M unit := λ st,
  match _registered st !! key with
  | Some _ =>
      (log (ADelItem key)
         (MkState (_kqueue st) (delete key (_registered st))
            (running st) (next_queue st) (trace st)),
       Return tt)
  | None => (st, Raise (KeyError key))
  end.

(** *** Collaborators *)

(** [self._kqueue.control(changelist, max_events, timeout)] *)
Definition kqueue_control (changelist : list kevent) (max_events : nat)
    (timeout : Timeout) : M (list kevent) := λ st,
  let '(kq, batch) := control (_kqueue st) changelist max_events timeout in
  (log (AControl changelist max_events timeout batch)
     (MkState kq (_registered st) (running st) (next_queue st) (trace st)),
   Return batch).

(** Modelled from the spec: [_core.reschedule], the scheduler's "resume task
    with result" primitive; the call is recorded and returns. *)
Definition reschedule (t : TaskId) (event : kevent) : M unit := λ st,
  (log (AReschedule t event) st, Return tt).

(** Modelled from the spec: [UnboundedQueue.put_nowait], a push that never
    blocks and never fails; the call is recorded and returns. *)
Definition put_nowait (q : QueueId) (event : kevent) : M unit := λ st,
  (log (APutNowait q event) st, Return tt).

(** Modelled from the spec: [_core.UnboundedQueue()], a new queue, distinct
    from every queue made before. *)
Definition UnboundedQueue : M QueueId := λ st,
  (log (ANewQueue (next_queue st))
     (MkState (_kqueue st) (_registered st) (running st)
        (S (next_queue st)) (trace st)),
   Return (next_queue st)).

(** Modelled from the spec: [_core.current_task()], the opaque handle of the
    task that is running. *)
Definition current_task : M TaskId := λ st, (st, Return (running st)).

(** The events pushed to queue [q], oldest first, as the trace records them. *)
Definition queue_contents (q : QueueId) (tr : list action) : list kevent :=
  omap (λ a, match a with
             | APutNowait q' event => if decide (q' = q) then Some event else None
             | _ => None
             end) tr.

(** The resumptions [(task, event)] handed to the scheduler, oldest first. *)
Definition resumptions (tr : list action) : list (TaskId * kevent) :=
  omap (λ a, match a with
             | AReschedule t event => Some (t, event)
             | _ => None
             end) tr.

(** *** [statistics] *)

Definition statistics : M _KqueueStatistics := λ st,
  let '(tasks_waiting, monitors) :=
    foldl (λ '(tasks_waiting, monitors) receiver,
             if is_task receiver
             then (S tasks_waiting, monitors)
             else (tasks_waiting, S monitors))
          (0%nat, 0%nat) (map_to_list (_registered st)).*2 in
  (st, Return (new_KqueueStatistics tasks_waiting monitors)).

(** *** [handle_io] *)

(** [event.flags & select.KQ_EV_ONESHOT] as a truth value *)
Definition oneshot (event : kevent) : bool :=
  negb (Z.land (flags event) KQ_EV_ONESHOT =? 0).

(** The [while True] loop; [fuel] bounds the number of iterations, and
    [None] means the bound was reached with the loop still running. *)
Fixpoint poll (fuel : nat) (max_events : nat) (timeout : Timeout)
    (events : list kevent) (st : State K)
    : option (State K * outcome (list kevent)) :=
  match fuel with
  | O => None
  | S fuel' =>
      match kqueue_control [] max_events timeout st with
      | (st1, Raise e) => Some (st1, Raise e)
      | (st1, Return batch) =>
          let events := events ++ batch in
          if (length batch <? max_events)%nat
          then Some (st1, Return events)
          else poll fuel' max_events timeout_0 events st1
      end
  end.

(** The body of [for event in events]. *)
Definition dispatch (event : kevent) : M unit :=
  let key := (ident event, filter event) in
  let* receiver := getitem key in
  do (if oneshot event then delitem key else ret tt) in
  match receiver with
  | Task t => reschedule t event
  | Queue q => put_nowait q event
  end.

Definition handle_io (fuel : nat) (timeout : Timeout) (st : State K)
    : option (State K * outcome unit) :=
  let max_events := (size (_registered st) + 1)%nat in
  match poll fuel max_events timeout [] st with
  | None => None
  | Some (st1, Raise e) => Some (st1, Raise e)
  | Some (st1, Return events) => Some (for_each events dispatch st1)
  end.

(** *** [monitor_kevent] *)

Definition duplicate_message : string :=
  "attempt to register multiple listeners for same ident/filter pair".

(** [with self.monitor_kevent(ident, filter) as q: body(q)].  The generator
    runs up to its [yield] on entry; the block runs; the [finally] clause
    runs on the way out, whether the block returned or raised. *)
Definition monitor_kevent {A} (ident filter : Z) (body : QueueId → M A) : M A :=
  let key := (ident, filter) in
  let* present := contains key in
  if (present : bool) then raise (RuntimeError duplicate_message)
  else
    let* q := UnboundedQueue in
    do setitem key (Queue q) in
    try_finally (body q) (delitem key).

(** *** [wait_kevent] *)

(** How an [async] method leaves the caller: it raised before suspending,
    or the task is parked in [_core.yield_indefinitely(abort)] holding the
    callback [abort].  What the task does once it is resumed is the
    scheduler's business and is not part of the manager. *)
Inductive parked :=
| Raised (e : exn)
| Suspended (abort : RaiseCancel → M Abort).

(** The closure [abort] defined inside [wait_kevent]. *)
Definition wait_kevent_abort (key : Key) (abort_func : RaiseCancel → M Abort)
    (raise_cancel : RaiseCancel) : M Abort :=
  let* r := abort_func raise_cancel in
  do (match r with
      | SUCCEEDED => delitem key
      | FAILED => ret tt
      end) in
  ret r.

Definition wait_kevent (ident filter : Z) (abort_func : RaiseCancel → M Abort)
    (st : State K) : State K * parked :=
  let key := (ident, filter) in
  match (let* present := contains key in
         if (present : bool) then raise (RuntimeError duplicate_message)
         else
           let* t := current_task in
           setitem key (Task t)) st with
  | (st1, Raise e) => (st1, Raised e)
  | (st1, Return _) => (st1, Suspended (wait_kevent_abort key abort_func))
  end.

(** *** [_wait_common], [wait_readable], [wait_writable] *)

(** The closure [abort] defined inside [_wait_common]. *)
Definition _wait_common_abort (fd filter : Z) (_ : RaiseCancel) : M Abort :=
  let event := select_kevent fd filter KQ_EV_DELETE in
  do kqueue_control [event] 0 None in
  ret SUCCEEDED.

Definition _wait_common (fd : fd_arg) (filter : Z) (st : State K)
    : State K * parked :=
  let fd := match fd with
            | FdInt n => n
            | FdObject fileno => fileno
            end in
  let flags := Z.lor KQ_EV_ADD KQ_EV_ONESHOT in
  let event := select_kevent fd filter flags in
  match kqueue_control [event] 0 None st with
  | (st1, Raise e) => (st1, Raised e)
  | (st1, Return _) => wait_kevent fd filter (_wait_common_abort fd filter) st1
  end.

Definition wait_readable (fd : fd_arg) : State K → State K * parked :=
  _wait_common fd KQ_FILTER_READ.

Definition wait_writable (fd : fd_arg) : State K → State K * parked :=
  _wait_common fd KQ_FILTER_WRITE.

End Manager.

(** ** Reading tables and traces *)

(** The number of keys whose receiver is a task (a Waiter). *)
Definition waiters (table : gmap Key Receiver) : nat :=
  size (base.filter (λ kv, is_task kv.2 = true) table).

(** The number of keys whose receiver is a queue (a Monitor). *)
Definition monitor_receivers (table : gmap Key Receiver) : nat :=
  size (base.filter (λ kv, is_task kv.2 = false) table).

(** The call that hands [event] to [receiver]. *)
Definition deliver (receiver : Receiver) (event : kevent) : action :=
  match receiver with
  | Task t => AReschedule t event
  | Queue q => APutNowait q event
  end.

(** The events handed to receivers in a trace, oldest first. *)
Definition delivered (tr : list action) : list kevent :=
  omap (λ a, match a with
             | AReschedule _ event | APutNowait _ event => Some event
             | _ => None
             end) tr.

(** Whether an action concerns [key]: it writes or deletes the key's entry,
    or hands over an event of that key. *)
Definition touches (key : Key) (a : action) : bool :=
  match a with
  | ASetItem k _ | ADelItem k => bool_decide (k = key)
  | AReschedule _ event | APutNowait _ event => bool_decide (key_of event = key)
  | AControl _ _ _ _ | ANewQueue _ => false
  end.

Definition is_control (a : action) : bool :=
  match a with
  | AControl _ _ _ _ => true
  | _ => false
  end.

(** The calls of a polling round that received [batches], one after the
    other: the first call passes [timeout], every later one passes 0. *)
Fixpoint poll_trace (max_events : nat) (timeout : Timeout)
    (batches : list (list kevent)) : list action :=
  match batches with
  | [] => []
  | batch :: rest =>
      AControl [] max_events timeout batch :: poll_trace max_events timeout_0 rest
  end.

(** The identity [_wait_common] works with. *)
Definition fd_ident (fd : fd_arg) : Z :=
  match fd with
  | FdInt n => n
  | FdObject fileno => fileno
  end.

Section States.
Context {K : Type}.

(** The manager as the block of [with self.monitor_kevent(ident, filter)]
    finds it: a new queue has been made and registered under the key. *)
Definition monitoring (st : State K) (key : Key) : State K :=
  MkState (_kqueue st) (<[key := Queue (next_queue st)]> (_registered st))
    (running st) (S (next_queue st))
    (trace st ++ [ANewQueue (next_queue st);
                  ASetItem key (Queue (next_queue st))]).

(** The manager after the loop body of [handle_io] has handed [event] to
    the [receiver] found under its key. *)
Definition dispatched (st : State K) (event : kevent) (receiver : Receiver)
    : State K :=
  if oneshot event
  then MkState (_kqueue st) (delete (key_of event) (_registered st))
         (running st) (next_queue st)
         (trace st ++ [ADelItem (key_of event); deliver receiver event])
  else MkState (_kqueue st) (_registered st) (running st) (next_queue st)
         (trace st ++ [deliver receiver event]).

End States.

Section Parked.
Context {K : Type} `{!Kqueue K} {RaiseCancel : Type}.

(** The manager and the parked task after a one-shot interest in
    [(fd, filter)] has been submitted to the kernel queue and the running
    task has been registered under that key. *)
Definition submitted_and_parked (st : State K) (fd filter : Z)
    : State K * parked (RaiseCancel := RaiseCancel) :=
  let event := select_kevent fd filter (Z.lor KQ_EV_ADD KQ_EV_ONESHOT) in
  let '(kq, batch) := control (_kqueue st) [event] 0 None in
  (MkState kq (<[(fd, filter) := Task (running st)]> (_registered st))
     (running st) (next_queue st)
     (trace st ++ [AControl [event] 0 None batch;
                   ASetItem (fd, filter) (Task (running st))]),
   Suspended (wait_kevent_abort (fd, filter) (_wait_common_abort fd filter))).

End Parked.

(** ** Concrete states, for running the model *)

Definition WRITE3 : kevent := select_kevent 3 KQ_FILTER_WRITE 0.
Definition READ7_ONESHOT : kevent :=
  select_kevent 7 KQ_FILTER_READ (Z.lor KQ_EV_ADD KQ_EV_ONESHOT).

Definition WRITE3_ONESHOT : kevent :=
  select_kevent 3 KQ_FILTER_WRITE (Z.lor KQ_EV_ADD KQ_EV_ONESHOT).

(** An idle manager over a kernel queue with the given ready events. *)
Definition idle (evs : list kevent) : State fifo_kqueue :=
  MkState (FifoKqueue evs) ∅ 0%nat 0%nat [].

(** Task 5 waits on [(7, READ)], queue 0 monitors [(3, WRITE)]. *)
Definition busy (evs : list kevent) : State fifo_kqueue :=
  MkState (FifoKqueue evs)
    (<[(7, KQ_FILTER_READ) := Task 5%nat]> (<[(3, KQ_FILTER_WRITE) := Queue 0%nat]> ∅))
    5%nat 1%nat [].

(** [st] once the kernel queue has run dry, with [calls] as its trace. *)
Definition drained (st : State fifo_kqueue) (calls : list action)
    : State fifo_kqueue :=
  MkState (FifoKqueue []) (_registered st) (running st) (next_queue st) calls.

(** The kernel queue of [st] with new ready events. *)
Definition make_ready (evs : list kevent) (st : State fifo_kqueue)
    : State fifo_kqueue :=
  MkState (FifoKqueue (ready (_kqueue st) ++ evs)) (_registered st)
    (running st) (next_queue st) (trace st).

(** [handle_io(timeout)] on a kernel queue that runs dry, with the fuel that
    is enough for it. *)
Definition handle_io_fifo_run (timeout : Timeout) (st : State fifo_kqueue)
    : option (State fifo_kqueue * outcome unit) :=
  handle_io (S (length (ready (_kqueue st)))) timeout st.

(** Three ticks, each with one new write event for descriptor 3. *)
Definition three_ticks (st : State fifo_kqueue)
    : option (State fifo_kqueue * outcome unit) :=
  match handle_io_fifo_run None (make_ready [WRITE3] st) with
  | Some (st1, Return _) =>
      match handle_io_fifo_run None (make_ready [WRITE3] st1) with
      | Some (st2, Return _) => handle_io_fifo_run None (make_ready [WRITE3] st2)
      | r => r
      end
  | r => r
  end.

(** ** Where events go *)

(** Whether an action hands an event to a receiver. *)
Definition is_delivery (a : action) : bool :=
  match a with
  | AReschedule _ _ | APutNowait _ _ => true
  | _ => false
  end.

(** The deliveries that send each event to the receiver that [table] holds
    under the event's key, in the order of the events; an event whose key is
    not in [table] gives none. *)
Definition route (table : gmap Key Receiver) (events : list kevent)
    : list action :=
  omap (λ event, (λ receiver, deliver receiver event) <$> table !! key_of event)
    events.

(** The keys of the events that carry the one-shot flag. *)
Definition oneshot_keys (events : list kevent) : list Key :=
  key_of <$> base.filter (λ event, oneshot event = true) events.

(** The change list that cancels the interest in [(fd, filter)]. *)
Definition delete_interest (fd filter : Z) : list kevent :=
  [select_kevent fd filter KQ_EV_DELETE].

(** The change list that asks for one event of [(fd, filter)]. *)
Definition oneshot_interest (fd filter : Z) : list kevent :=
  [select_kevent fd filter (Z.lor KQ_EV_ADD KQ_EV_ONESHOT)].

Section Waiting.
Context {K : Type}.

(** The manager once [wait_kevent] has registered the running task under
    [key]. *)
Definition waiting (st : State K) (key : Key) : State K :=
  MkState (_kqueue st) (<[key := Task (running st)]> (_registered st))
    (running st) (next_queue st)
    (trace st ++ [ASetItem key (Task (running st))]).

End Waiting.

(** A tick inside a block: [handle_io(None)] on a kernel queue that runs dry. *)
Definition tick (st : State fifo_kqueue) : State fifo_kqueue * outcome unit :=
  match handle_io (S (length (ready (_kqueue st)))) None st with
  | Some r => r
  | None => (st, Return tt)
  end.

(** Two writes for the monitor and a one-shot read for the waiting task. *)
Definition storm : list kevent := [WRITE3; WRITE3; READ7_ONESHOT].

(** [busy storm] once polled, and once [handle_io] is over. *)
Definition storm_polled : State fifo_kqueue :=
  drained (busy storm) [AControl [] 3 None storm; AControl [] 3 timeout_0 []].

Definition storm_handled : State fifo_kqueue :=
  MkState (FifoKqueue []) (<[(3, KQ_FILTER_WRITE) := Queue 0%nat]> ∅)
    5%nat 1%nat
    (trace storm_polled
     ++ [APutNowait 0%nat WRITE3; APutNowait 0%nat WRITE3;
         ADelItem (7, KQ_FILTER_READ); AReschedule 5%nat READ7_ONESHOT]).

(** A read event for descriptor 7 without the one-shot flag. *)
Definition READ7 : kevent := select_kevent 7 KQ_FILTER_READ 0.

(** * Proofs *)

Section Counting.

(** The counting loop of [statistics], started from any pair of counters. *)
Lemma count_loop (l : list Receiver) (a b : nat) :
  foldl (λ '(tasks_waiting, monitors) receiver,
           if is_task receiver
           then (S tasks_waiting, monitors)
           else (tasks_waiting, S monitors)) (a, b) l
  = ((a + length (base.filter (λ r, is_task r = true) l))%nat,
     (b + length (base.filter (λ r, is_task r = false) l))%nat).
Proof.
  revert a b. induction l as [|r l IH]; intros a b; simpl.
  - f_equal; lia.
  - destruct r; simpl; rewrite IH, !filter_cons; simpl; f_equal; lia.
Qed.

(** Filtering the values of a table by kind counts the keys of that kind. *)
Lemma size_filter_values (b : bool) (table : gmap Key Receiver) :
  size (base.filter (λ kv : Key * Receiver, is_task kv.2 = b) table)
  = length (base.filter (λ r, is_task r = b) (map_to_list table).*2).
Proof.
  induction table as [|k r table Hk Hfirst IH] using map_first_key_ind.
  - by rewrite map_filter_empty, map_size_empty, map_to_list_empty.
  - rewrite (map_to_list_insert_first_key _ _ _ Hk Hfirst). simpl.
    assert (base.filter (λ kv : Key * Receiver, is_task kv.2 = b) table !! k = None)
      as Hnone by (apply map_lookup_filter_None_2; by left).
    rewrite filter_cons.
    destruct (decide (is_task r = b)) as [Hr|Hr].
    + rewrite map_filter_insert_True by done.
      rewrite map_size_insert_None by done.
      simpl. by rewrite IH.
    + rewrite map_filter_insert_False by done.
      by rewrite delete_id.
Qed.

Lemma waiters_plus_monitors (table : gmap Key Receiver) :
  (waiters table + monitor_receivers table)%nat = size table.
Proof.
  unfold waiters, monitor_receivers. rewrite !size_filter_values.
  rewrite <- length_map_to_list, <- (length_fmap snd (map_to_list table)).
  induction ((map_to_list table).*2) as [|r l IH]; [done|].
  destruct r; rewrite !filter_cons; simpl; lia.
Qed.

End Counting.

Section Proofs.
Context {K : Type} `{!Kqueue K} {RaiseCancel : Type}.

Implicit Types (st : State K) (key : Key) (event : kevent).

(** C9: whatever the table holds, [statistics] returns the number of task
    receivers as [tasks_waiting], the number of queue receivers as
    [monitors] and ["kqueue"] as [backend], and leaves the manager (its
    table included) as it was. *)
Theorem statistics_counts st :
  statistics st
  = (st, Return {| tasks_waiting := waiters (_registered st);
                   monitors := monitor_receivers (_registered st);
                   backend := "kqueue" |}).
Proof.
  unfold statistics. rewrite count_loop. simpl.
  unfold waiters, monitor_receivers. by rewrite !size_filter_values.
Qed.

(** *** Registering a key twice *)

(** C2: when the key is already in the table, [wait_kevent] and
    [monitor_kevent] raise the duplicate-registration error at once: the
    task is not parked, the block of the [with] statement does not run, and
    the manager (table, kernel queue, trace) is exactly as before. *)
Theorem duplicate_registration_rejected st (ident0 filter0 : Z)
    (receiver : Receiver) (abort_func : RaiseCancel → M Abort)
    {A} (body : QueueId → M A) :
  _registered st !! (ident0, filter0) = Some receiver →
  wait_kevent ident0 filter0 abort_func st
    = (st, Raised (RuntimeError duplicate_message))
  ∧ monitor_kevent ident0 filter0 body st
    = (st, Raise (RuntimeError duplicate_message)).
Proof.
  intros Hin. unfold wait_kevent, monitor_kevent, bind, contains, raise.
  rewrite Hin. rewrite bool_decide_eq_true_2 by eauto. done.
Qed.

(** *** The scope of [monitor_kevent] *)

Lemma monitor_kevent_unfold st (ident0 filter0 : Z) {A} (body : QueueId → M A) :
  _registered st !! (ident0, filter0) = None →
  monitor_kevent ident0 filter0 body st
  = try_finally (body (next_queue st)) (delitem (ident0, filter0))
      (monitoring st (ident0, filter0)).
Proof.
  intros Hout. unfold monitor_kevent, bind, contains.
  rewrite Hout. rewrite bool_decide_eq_false_2 by (by intros [? ?]).
  unfold UnboundedQueue, setitem, log, monitoring. simpl.
  by rewrite <- app_assoc.
Qed.

Lemma delitem_absent st key :
  _registered (delitem key st).1 !! key = None
  ∧ _registered (delitem key st).1 = delete key (_registered st).
Proof.
  unfold delitem. destruct (_registered st !! key) eqn:E; simpl.
  - by rewrite lookup_delete_eq.
  - by rewrite delete_id.
Qed.

(** C8: for a key that is not registered, [monitor_kevent] registers a new
    queue under the key and runs the block on that state; however the block
    ends (it returns or it raises) the [finally] clause runs, and when the
    [with] statement is left the key is not in the table, the rest of the
    table being as the block left it. *)
Theorem monitor_kevent_scope st (ident0 filter0 : Z) {A} (body : QueueId → M A) :
  _registered st !! (ident0, filter0) = None →
  let key := (ident0, filter0) in
  let q := next_queue st in
  let inside := body q (monitoring st key) in
  let after := monitor_kevent ident0 filter0 body st in
  _registered (monitoring st key) !! key = Some (Queue q)
  ∧ _registered after.1 !! key = None
  ∧ _registered after.1 = delete key (_registered inside.1)
  ∧ (is_Some (_registered inside.1 !! key) →
     after.2 = inside.2 ∧ trace after.1 = trace inside.1 ++ [ADelItem key]).
Proof.
  intros Hout key q inside after. subst after.
  rewrite monitor_kevent_unfold by done. fold key q.
  split; [apply lookup_insert_eq|].
  unfold try_finally. fold inside. destruct inside as [st1 out] eqn:Hin.
  pose proof (delitem_absent st1 key) as [Habs Hdel].
  unfold delitem in *. simpl.
  destruct (_registered st1 !! key) eqn:E; simpl in *.
  - repeat split; done.
  - repeat split; done.
Qed.

(** *** The abort callback of [wait_kevent] *)

(** C5: for a task parked by [wait_kevent] whose key is still registered,
    the abort callback returns what [abort_func] returned; it removes the
    key exactly when that is [SUCCEEDED], and when it is [FAILED] the
    manager is as [abort_func] left it. *)
Theorem abort_removes_iff_succeeded st (ident0 filter0 : Z)
    (abort_func : RaiseCancel → M Abort) st1 abort :
  wait_kevent ident0 filter0 abort_func st = (st1, Suspended abort) →
  ∀ raise_cancel st2 st3 r,
    abort_func raise_cancel st2 = (st3, Return r) →
    is_Some (_registered st3 !! (ident0, filter0)) →
    ∃ st4,
      abort raise_cancel st2 = (st4, Return r)
      ∧ (r = FAILED → st4 = st3)
      ∧ (r = SUCCEEDED →
         _registered st4 = delete (ident0, filter0) (_registered st3)
         ∧ trace st4 = trace st3 ++ [ADelItem (ident0, filter0)])
      ∧ (_registered st4 !! (ident0, filter0) = None ↔ r = SUCCEEDED).
Proof.
  intros Hwait raise_cancel st2 st3 r Hfunc [receiver Hin].
  assert (abort = wait_kevent_abort (ident0, filter0) abort_func) as ->.
  { unfold wait_kevent in Hwait.
    destruct (bind _ _ st) as [st' [[]|e]]; by inversion Hwait. }
  unfold wait_kevent_abort, bind. rewrite Hfunc.
  destruct r; unfold delitem, ret; simpl.
  - rewrite Hin. eexists. split; [done|]. simpl.
    repeat split; try done. by rewrite lookup_delete_eq.
  - eexists. split; [done|]. repeat split; try done.
    all: simpl in *; congruence.
Qed.

(** *** One turn of the dispatch loop *)

Lemma dispatch_present st event receiver :
  _registered st !! key_of event = Some receiver →
  dispatch event st = (dispatched st event receiver, Return tt).
Proof.
  intros Hin. unfold dispatch, bind, getitem, dispatched.
  fold (key_of event). rewrite Hin.
  destruct (oneshot event).
  - unfold delitem. rewrite Hin.
    destruct receiver; unfold reschedule, put_nowait, log; simpl;
      by rewrite <- app_assoc.
  - by destruct receiver.
Qed.

Lemma dispatch_missing st event :
  _registered st !! key_of event = None →
  dispatch event st = (st, Raise (KeyError (key_of event))).
Proof.
  intros Hout. unfold dispatch, bind, getitem.
  fold (key_of event). by rewrite Hout.
Qed.

(** A turn of the loop never adds a key. *)
Lemma dispatched_lookup_None st event receiver key :
  _registered st !! key = None →
  _registered (dispatched st event receiver) !! key = None.
Proof.
  intros Hout. unfold dispatched.
  destruct (oneshot event); simpl; [|done].
  destruct (decide (key_of event = key)) as [->|Hne].
  - apply lookup_delete_eq.
  - by rewrite lookup_delete_ne.
Qed.

Lemma for_each_app {A} (l1 l2 : list A) (body : A → M unit) st :
  for_each (l1 ++ l2) body st
  = match for_each l1 body st with
    | (st1, Return _) => for_each l2 body st1
    | (st1, Raise e) => (st1, Raise e)
    end.
Proof.
  revert st. induction l1 as [|x l1 IH]; intros st; simpl; [done|].
  unfold bind. destruct (body x st) as [st1 [[]|e]]; [apply IH|done].
Qed.

(** Once a key is out of the table, the rest of the loop neither touches
    it nor brings it back. *)
Lemma for_each_dispatch_absent events st st' out key :
  _registered st !! key = None →
  for_each events dispatch st = (st', out) →
  ∃ tr, trace st' = trace st ++ tr
        ∧ Forall (λ a, touches key a = false) tr
        ∧ _registered st' !! key = None.
Proof.
  revert st. induction events as [|event events IH]; intros st Hout Hrun.
  - inversion Hrun; subst. exists []. by rewrite app_nil_r.
  - simpl in Hrun. unfold bind in Hrun.
    destruct (_registered st !! key_of event) as [receiver|] eqn:E.
    + rewrite (dispatch_present _ _ _ E) in Hrun.
      assert (key_of event ≠ key) as Hne by congruence.
      destruct (IH _ (dispatched_lookup_None _ event receiver _ Hout) Hrun)
        as (tr & Htr & Hnot & Habs).
      unfold dispatched in Htr. destruct (oneshot event); simpl in Htr.
      * exists ([ADelItem (key_of event); deliver receiver event] ++ tr).
        rewrite Htr, <- app_assoc. repeat split; [|done].
        repeat constructor; [|destruct receiver|done]; simpl;
          by apply bool_decide_eq_false_2.
      * exists ([deliver receiver event] ++ tr).
        rewrite Htr, <- app_assoc. repeat split; [|done].
        constructor; [|done]. destruct receiver; simpl;
          by apply bool_decide_eq_false_2.
    + rewrite (dispatch_missing _ _ E) in Hrun. inversion Hrun; subst.
      exists []. by rewrite app_nil_r.
Qed.

(** *** The polling loop *)

Lemma poll_spec fuel max_events timeout acc st st1 out :
  poll fuel max_events timeout acc st = Some (st1, out) →
  ∃ full last,
    out = Return (acc ++ concat full ++ last)
    ∧ Forall (λ batch, (max_events ≤ length batch)%nat) full
    ∧ (length last < max_events)%nat
    ∧ trace st1 = trace st ++ poll_trace max_events timeout (full ++ [last])
    ∧ _registered st1 = _registered st
    ∧ running st1 = running st
    ∧ next_queue st1 = next_queue st.
Proof.
  revert timeout acc st.
  induction fuel as [|fuel IH]; intros timeout acc st Hpoll; [done|].
  simpl in Hpoll. unfold kqueue_control in Hpoll.
  destruct (control (_kqueue st) [] max_events timeout) as [kq batch].
  destruct (length batch <? max_events)%nat eqn:Hlt.
  - inversion Hpoll; subst. exists [], batch. simpl.
    rewrite Nat.ltb_lt in Hlt. by repeat split.
  - apply IH in Hpoll as (full & last & -> & Hfull & Hlast & Htr & ? & ? & ?).
    rewrite Nat.ltb_ge in Hlt.
    exists (batch :: full), last. simpl in *.
    rewrite Htr, <- !app_assoc. repeat split; try done.
    by constructor.
Qed.

(** More fuel does not change what the loop returns. *)
Lemma poll_fuel_mono fuel fuel' max_events timeout acc st r :
  (fuel ≤ fuel')%nat →
  poll fuel max_events timeout acc st = Some r →
  poll fuel' max_events timeout acc st = Some r.
Proof.
  revert fuel' timeout acc st.
  induction fuel as [|fuel IH]; intros fuel' timeout acc st Hle Hpoll; [done|].
  destruct fuel' as [|fuel']; [lia|].
  cbn [poll] in *. destruct (kqueue_control _ _ _ st) as [st1 [batch|e]]; [|done].
  destruct (length batch <? max_events)%nat; [done|].
  apply IH; [lia|done].
Qed.

Lemma handle_io_fuel_mono fuel fuel' timeout st r :
  (fuel ≤ fuel')%nat →
  handle_io fuel timeout st = Some r →
  handle_io fuel' timeout st = Some r.
Proof.
  intros Hle Hrun. unfold handle_io in *.
  destruct (poll fuel _ timeout [] st) as [polled|] eqn:Hpoll; [|done].
  by rewrite (poll_fuel_mono _ _ _ _ _ _ _ Hle Hpoll).
Qed.

Lemma handle_io_unfold fuel timeout st st1 events :
  poll fuel (size (_registered st) + 1) timeout [] st
    = Some (st1, Return events) →
  handle_io fuel timeout st = Some (for_each events dispatch st1).
Proof. intros Hpoll. unfold handle_io. by rewrite Hpoll. Qed.

(** *** One-shot events *)

(** C1: take an event with the one-shot flag that [handle_io] has polled
    and whose turn in the dispatch loop has come with a receiver registered
    under its key.  Its turn removes the key from the table and then hands
    the event to the receiver, once; no later turn of this [handle_io]
    touches the key again, and when [handle_io] is over the key is not in
    the table. *)
Theorem oneshot_delivery fuel timeout st st1 pre event post st2 receiver :
  poll fuel (size (_registered st) + 1) timeout [] st
    = Some (st1, Return (pre ++ event :: post)) →
  for_each pre dispatch st1 = (st2, Return tt) →
  _registered st2 !! key_of event = Some receiver →
  oneshot event = true →
  ∃ st3 st' out tr_post,
    dispatch event st2 = (st3, Return tt)
    ∧ _registered st3 = delete (key_of event) (_registered st2)
    ∧ trace st3 = trace st2 ++ [ADelItem (key_of event); deliver receiver event]
    ∧ handle_io fuel timeout st = Some (st', out)
    ∧ trace st' = trace st3 ++ tr_post
    ∧ Forall (λ a, touches (key_of event) a = false) tr_post
    ∧ _registered st' !! key_of event = None.
Proof.
  intros Hpoll Hpre Hin Hone.
  pose proof (dispatch_present _ _ _ Hin) as Hturn.
  destruct (for_each post dispatch (dispatched st2 event receiver))
    as [st' out] eqn:Hpost.
  assert (_registered (dispatched st2 event receiver) !! key_of event = None)
    as Hgone.
  { unfold dispatched. rewrite Hone. simpl. apply lookup_delete_eq. }
  destruct (for_each_dispatch_absent _ _ _ _ _ Hgone Hpost)
    as (tr_post & Htr & Hnot & Habs).
  exists (dispatched st2 event receiver), st', out, tr_post.
  repeat split; try done.
  - unfold dispatched. by rewrite Hone.
  - unfold dispatched. by rewrite Hone.
  - rewrite (handle_io_unfold _ _ _ _ _ Hpoll), for_each_app, Hpre.
    cbn [for_each]. unfold bind. by rewrite Hturn, Hpost.
Qed.

(** *** Events for a monitor *)

Lemma for_each_dispatch_monitor events st key q :
  _registered st !! key = Some (Queue q) →
  Forall (λ event, key_of event = key → oneshot event = false) events →
  ∃ st' out tr,
    for_each events dispatch st = (st', out)
    ∧ _registered st' !! key = Some (Queue q)
    ∧ trace st' = trace st ++ tr
    ∧ (out = Return tt →
       base.filter (λ a, touches key a = true) tr
       = map (APutNowait q) (base.filter (λ event, key_of event = key) events))
    ∧ (Forall (λ event, key_of event = key) events → out = Return tt).
Proof.
  revert st. induction events as [|event events IH]; intros st Hin Hall.
  - exists st, (Return tt), []. by rewrite app_nil_r.
  - inversion Hall as [|? ? Hflag Hall']; subst.
    cbn [for_each]. unfold bind. rewrite (filter_cons (λ e, key_of e = key)).
    destruct (decide (key_of event = key)) as [Hkey|Hkey].
    + rewrite <- Hkey in Hin. rewrite (dispatch_present _ _ _ Hin).
      rewrite Hkey in Hin.
      unfold dispatched. rewrite (Hflag Hkey).
      destruct (IH (MkState (_kqueue st) (_registered st) (running st)
                      (next_queue st) (trace st ++ [deliver (Queue q) event]))
                  Hin Hall') as (st' & out & tr & Hrun & Hreg & Htr & Hpush & Hret).
      exists st', out, (APutNowait q event :: tr).
      rewrite Hrun. simpl in Htr. rewrite Htr, <- app_assoc.
      repeat split; try done.
      * intros Hout. rewrite filter_cons_True
          by (simpl; by apply bool_decide_eq_true_2).
        simpl. by rewrite Hpush.
      * intros Hkeys. apply Hret. by inversion Hkeys.
    + destruct (_registered st !! key_of event) as [receiver|] eqn:E.
      * rewrite (dispatch_present _ _ _ E).
        assert (_registered (dispatched st event receiver) !! key
                = Some (Queue q)) as Hin'.
        { unfold dispatched. destruct (oneshot event); simpl; [|done].
          by rewrite lookup_delete_ne. }
        destruct (IH _ Hin' Hall')
          as (st' & out & tr & Hrun & Hreg & Htr & Hpush & Hret).
        assert (touches key (deliver receiver event) = false) as Hdel.
        { destruct receiver; simpl; by apply bool_decide_eq_false_2. }
        assert (touches key (ADelItem (key_of event)) = false) as Hrem.
        { simpl. by apply bool_decide_eq_false_2. }
        rewrite Hrun. unfold dispatched in Htr.
        destruct (oneshot event); simpl in Htr.
        -- exists st', out,
             ([ADelItem (key_of event); deliver receiver event] ++ tr).
           rewrite Htr, <- app_assoc. repeat split; try done.
           ++ intros Hout. simpl.
              rewrite !filter_cons_False by (by rewrite ?Hrem, ?Hdel).
              by apply Hpush.
           ++ intros Hkeys. by inversion Hkeys.
        -- exists st', out, ([deliver receiver event] ++ tr).
           rewrite Htr, <- app_assoc. repeat split; try done.
           ++ intros Hout. simpl.
              rewrite filter_cons_False by (by rewrite Hdel).
              by apply Hpush.
           ++ intros Hkeys. by inversion Hkeys.
      * rewrite (dispatch_missing _ _ E).
        exists st, (Raise (KeyError (key_of event))), [].
        rewrite app_nil_r. repeat split; try done.
        intros Hkeys. by inversion Hkeys.
Qed.

(** A whole batch seen from one monitor: let a queue be registered under a
    key, and let no event polled for that key carry the one-shot flag.  Then when
    [handle_io] is over the queue is still registered under the key; if
    [handle_io] returned, what it did about the key is exactly one
    [put_nowait] on that queue per polled event of the key, in the order
    polled; and it does return when every polled event is for that key. *)
Theorem monitor_keeps_registration fuel timeout st st1 events key q :
  _registered st !! key = Some (Queue q) →
  poll fuel (size (_registered st) + 1) timeout [] st
    = Some (st1, Return events) →
  Forall (λ event, key_of event = key → oneshot event = false) events →
  ∃ st' out tr,
    handle_io fuel timeout st = Some (st', out)
    ∧ _registered st' !! key = Some (Queue q)
    ∧ trace st' = trace st1 ++ tr
    ∧ (out = Return tt →
       base.filter (λ a, touches key a = true) tr
       = map (APutNowait q) (base.filter (λ event, key_of event = key) events))
    ∧ (Forall (λ event, key_of event = key) events → out = Return tt).
Proof.
  intros Hin Hpoll Hflags.
  pose proof (poll_spec _ _ _ _ _ _ _ Hpoll)
    as (_ & _ & _ & _ & _ & _ & Hreg & _).
  rewrite <- Hreg in Hin.
  destruct (for_each_dispatch_monitor events st1 key q Hin Hflags)
    as (st' & out & tr & Hrun & Hkept & Htr & Hpush & Hret).
  exists st', out, tr. rewrite (handle_io_unfold _ _ _ _ _ Hpoll).
  by rewrite Hrun.
Qed.

(** *** Events without a registration *)

Lemma for_each_dispatch_missing events st event :
  event ∈ events →
  _registered st !! key_of event = None →
  ∃ st' missing,
    for_each events dispatch st = (st', Raise (KeyError (key_of missing)))
    ∧ missing ∈ events
    ∧ _registered st' !! key_of missing = None.
Proof.
  revert st. induction events as [|head events IH]; intros st Hev Hout.
  - by apply elem_of_nil in Hev.
  - simpl. unfold bind.
    destruct (_registered st !! key_of head) as [receiver|] eqn:E.
    + rewrite (dispatch_present _ _ _ E).
      apply elem_of_cons in Hev as [->|Hev]; [congruence|].
      destruct (IH (dispatched st head receiver) Hev
                  (dispatched_lookup_None _ _ _ _ Hout))
        as (st' & missing & Hrun & Hmem & Habs).
      exists st', missing. repeat split; try done. by right.
    + rewrite (dispatch_missing _ _ E).
      exists st, head. repeat split; try done. by left.
Qed.

(** C6: when [handle_io] has polled an event whose key is not in the table,
    it does not return: a [KeyError] for a polled event with no
    registration comes out of it. *)
Theorem missing_registration_raises fuel timeout st st1 events event :
  poll fuel (size (_registered st) + 1) timeout [] st
    = Some (st1, Return events) →
  event ∈ events →
  _registered st !! key_of event = None →
  ∃ st' missing,
    handle_io fuel timeout st = Some (st', Raise (KeyError (key_of missing)))
    ∧ missing ∈ events
    ∧ _registered st' !! key_of missing = None.
Proof.
  intros Hpoll Hev Hout.
  pose proof (poll_spec _ _ _ _ _ _ _ Hpoll)
    as (_ & _ & _ & _ & _ & _ & Hreg & _).
  rewrite <- Hreg in Hout.
  destruct (for_each_dispatch_missing _ _ _ Hev Hout)
    as (st' & missing & Hrun & Hmem & Habs).
  exists st', missing. rewrite (handle_io_unfold _ _ _ _ _ Hpoll).
  by rewrite Hrun.
Qed.

Lemma for_each_dispatch_trace events st st' out :
  for_each events dispatch st = (st', out) →
  ∃ tr, trace st' = trace st ++ tr
        ∧ Forall (λ a, is_control a = false) tr
        ∧ delivered tr `prefix_of` events
        ∧ (out = Return tt → delivered tr = events).
Proof.
  revert st. induction events as [|event events IH]; intros st Hrun.
  - inversion Hrun; subst. exists []. by rewrite app_nil_r.
  - cbn [for_each] in Hrun. unfold bind in Hrun.
    destruct (_registered st !! key_of event) as [receiver|] eqn:E.
    + rewrite (dispatch_present _ _ _ E) in Hrun.
      destruct (IH _ Hrun) as (tr & Htr & Hctl & Hpre & Hall).
      assert (is_control (deliver receiver event) = false
              ∧ delivered (deliver receiver event :: tr) = event :: delivered tr)
        as [Hdel Hcons] by (by destruct receiver).
      unfold dispatched in Htr. destruct (oneshot event); simpl in Htr.
      * exists ([ADelItem (key_of event); deliver receiver event] ++ tr).
        rewrite Htr, <- app_assoc. split; [done|].
        split; [by repeat constructor|].
        change (delivered ([ADelItem (key_of event); deliver receiver event] ++ tr))
          with (delivered (deliver receiver event :: tr)).
        rewrite Hcons. split; [by apply prefix_cons|].
        intros Hout. by rewrite Hall.
      * exists ([deliver receiver event] ++ tr).
        rewrite Htr, <- app_assoc. split; [done|].
        split; [by repeat constructor|].
        change ([deliver receiver event] ++ tr) with (deliver receiver event :: tr).
        rewrite Hcons. split; [by apply prefix_cons|].
        intros Hout. by rewrite Hall.
    + rewrite (dispatch_missing _ _ E) in Hrun. inversion Hrun; subst.
      exists []. rewrite app_nil_r. repeat split; try done.
      apply prefix_nil.
Qed.

(** C3: a [handle_io] that comes to an end has polled the kernel queue with
    [max_events] equal to the number of registrations plus one (so more
    than zero), passing the caller's timeout in the first call and 0 in
    every later one; every batch but the last filled [max_events] and was
    followed by another call, the last batch was shorter than [max_events]
    and was followed by none; after polling it made no further kernel call,
    handed out events in the order polled and, when it returned, had
    handed out every event of every batch. *)
Theorem handle_io_polling fuel timeout st st' out :
  handle_io fuel timeout st = Some (st', out) →
  let max_events := (size (_registered st) + 1)%nat in
  ∃ full last tr,
    (0 < max_events)%nat
    ∧ Forall (λ batch, (max_events ≤ length batch)%nat) full
    ∧ (length last < max_events)%nat
    ∧ trace st' = trace st ++ poll_trace max_events timeout (full ++ [last]) ++ tr
    ∧ Forall (λ a, is_control a = false) tr
    ∧ delivered tr `prefix_of` concat full ++ last
    ∧ (out = Return tt → delivered tr = concat full ++ last).
Proof.
  intros Hrun max_events. unfold handle_io in Hrun. fold max_events in Hrun.
  destruct (poll fuel max_events timeout [] st) as [[st1 polled]|] eqn:Hpoll;
    [|done].
  destruct (poll_spec _ _ _ _ _ _ _ Hpoll)
    as (full & last & -> & Hfull & Hlast & Htr & _).
  simpl in Hrun. inversion Hrun as [Hloop]. clear Hrun.
  destruct (for_each_dispatch_trace _ _ _ _ Hloop)
    as (tr & Htr' & Hctl & Hpre & Hall).
  exists full, last, tr. rewrite Htr', Htr, <- app_assoc.
  repeat split; try done. unfold max_events. lia.
Qed.

(** *** What the exceptions say *)

Lemma prefixb_app (p s : string) : prefixb p (p +:+ s) = true.
Proof.
  induction p as [|a p IH]; [done|]. simpl. by rewrite Ascii.eqb_refl.
Qed.

Lemma infixb_prefixb (p s : string) : prefixb p s = true → infixb p s = true.
Proof. intros H. destruct s; simpl; by rewrite H. Qed.

Lemma infixb_app_r (p a s : string) :
  infixb p s = true → infixb p (a +:+ s) = true.
Proof.
  intros H. induction a as [|c a IH]; [done|].
  simpl. rewrite IH. apply orb_true_r.
Qed.

Lemma KeyError_carries_key key : carries_key (KeyError key) key.
Proof.
  unfold carries_key, message, repr_key. apply andb_true_intro. split.
  - apply infixb_app_r, infixb_prefixb, prefixb_app.
  - do 3 apply infixb_app_r. apply infixb_prefixb, prefixb_app.
Qed.

Lemma for_each_dispatch_raise events st st' e :
  for_each events dispatch st = (st', Raise e) →
  ∃ event, event ∈ events
           ∧ e = KeyError (key_of event)
           ∧ _registered st' !! key_of event = None.
Proof.
  revert st. induction events as [|event events IH]; intros st Hrun; [done|].
  cbn [for_each] in Hrun. unfold bind in Hrun.
  destruct (_registered st !! key_of event) as [receiver|] eqn:E.
  - rewrite (dispatch_present _ _ _ E) in Hrun.
    destruct (IH _ Hrun) as (event' & Hmem & He & Habs).
    exists event'. repeat split; try done. by right.
  - rewrite (dispatch_missing _ _ E) in Hrun. inversion Hrun; subst.
    exists event. repeat split; try done. by left.
Qed.

(** C7 (as the code has it): an exception that comes out of [handle_io] is
    the [KeyError] of a polled event that has no registration, and its
    message is the printed key, so it carries the key.  The exception that
    [wait_kevent] and [monitor_kevent] raise for a key that is already
    registered has one fixed message, the same for every key. *)
Theorem error_messages :
  (∀ fuel timeout st st' e,
     handle_io fuel timeout st = Some (st', Raise e) →
     ∃ st1 events event,
       poll fuel (size (_registered st) + 1) timeout [] st
         = Some (st1, Return events)
       ∧ event ∈ events
       ∧ _registered st' !! key_of event = None
       ∧ e = KeyError (key_of event)
       ∧ message e = repr_key (key_of event)
       ∧ carries_key e (key_of event))
  ∧ (∀ st (ident0 filter0 : Z) receiver
       (abort_func : RaiseCancel → M Abort) A (body : QueueId → M A),
     _registered st !! (ident0, filter0) = Some receiver →
     ∃ e,
       (wait_kevent ident0 filter0 abort_func st).2 = Raised e
       ∧ (monitor_kevent ident0 filter0 body st).2 = Raise e
       ∧ message e = duplicate_message).
Proof.
  split.
  - intros fuel timeout st st' e Hrun. unfold handle_io in Hrun.
    destruct (poll fuel _ timeout [] st) as [[st1 polled]|] eqn:Hpoll; [|done].
    destruct (poll_spec _ _ _ _ _ _ _ Hpoll) as (full & last & -> & _).
    simpl in Hrun. inversion Hrun as [Hloop]. clear Hrun.
    destruct (for_each_dispatch_raise _ _ _ _ Hloop)
      as (event & Hmem & -> & Habs).
    exists st1, (concat full ++ last), event.
    repeat split; try done. apply KeyError_carries_key.
  - intros st ident0 filter0 receiver abort_func A body Hin.
    exists (RuntimeError duplicate_message).
    unfold wait_kevent, monitor_kevent, bind, contains, raise.
    rewrite Hin. by rewrite bool_decide_eq_true_2 by eauto.
Qed.

(** *** The identity [_wait_common] uses *)

Lemma _wait_common_unfold st fd flt :
  _registered st !! (fd_ident fd, flt) = None →
  _wait_common (RaiseCancel := RaiseCancel) fd flt st
  = submitted_and_parked st (fd_ident fd) flt.
Proof.
  intros Hout. unfold _wait_common, submitted_and_parked, kqueue_control.
  fold (fd_ident fd).
  destruct (control _ _ _ _) as [kq batch].
  unfold wait_kevent, bind, contains, current_task, setitem, log. simpl.
  rewrite Hout. rewrite bool_decide_eq_false_2 by (by intros [? ?]).
  simpl. by rewrite <- app_assoc.
Qed.

(** C10: when [wait_readable] or [wait_writable] is given an object, the
    value of its [fileno()] is the [ident] of the one-shot event submitted
    to the kernel queue and the [ident] of the key under which the running
    task is registered; an int is used as it is, so both forms of argument
    lead to the same submission and the same registration. *)
Theorem wait_uses_fileno st (fileno : Z) :
  (_registered st !! (fileno, KQ_FILTER_READ) = None →
   wait_readable (RaiseCancel := RaiseCancel) (FdObject fileno) st
     = submitted_and_parked st fileno KQ_FILTER_READ
   ∧ wait_readable (RaiseCancel := RaiseCancel) (FdInt fileno) st
     = submitted_and_parked st fileno KQ_FILTER_READ)
  ∧ (_registered st !! (fileno, KQ_FILTER_WRITE) = None →
     wait_writable (RaiseCancel := RaiseCancel) (FdObject fileno) st
       = submitted_and_parked st fileno KQ_FILTER_WRITE
     ∧ wait_writable (RaiseCancel := RaiseCancel) (FdInt fileno) st
       = submitted_and_parked st fileno KQ_FILTER_WRITE).
Proof.
  split; intros Hout; unfold wait_readable, wait_writable;
    split; by apply _wait_common_unfold.
Qed.

End Proofs.

(** ** The loop ends on a kernel queue that runs dry *)

Section Fifo.
Implicit Types (st : State fifo_kqueue).

(** With room for at least one event per call, polling a queue of ready
    events ends within one call more than there are events, and has then
    polled all of them, in order. *)
Lemma poll_fifo fuel max_events timeout acc st :
  (0 < max_events)%nat →
  (length (ready (_kqueue st)) < fuel)%nat →
  ∃ st1, poll fuel max_events timeout acc st
         = Some (st1, Return (acc ++ ready (_kqueue st)))
         ∧ ready (_kqueue st1) = [].
Proof.
  intros Hmax. revert timeout acc st.
  induction fuel as [|fuel IH]; intros timeout acc st Hfuel; [lia|].
  cbn [poll]. unfold kqueue_control. cbn [control fifo_Kqueue].
  destruct (length (take max_events (ready (_kqueue st))) <? max_events)%nat
    eqn:Hlt.
  - apply Nat.ltb_lt in Hlt. rewrite length_take in Hlt.
    eexists. split; [by rewrite take_ge by lia|].
    simpl. apply drop_ge. lia.
  - apply Nat.ltb_ge in Hlt. rewrite length_take in Hlt.
    edestruct (IH timeout_0 (acc ++ take max_events (ready (_kqueue st))))
      as (st1 & Hpoll & Hdry); [|rewrite Hpoll].
    + simpl. rewrite length_drop. lia.
    + exists st1. split; [|done]. simpl.
      by rewrite <- app_assoc, take_drop.
Qed.

(** [handle_io] comes to an end, having polled every ready event. *)
Lemma handle_io_fifo timeout st :
  ∃ st1 st' out,
    poll (S (length (ready (_kqueue st)))) (size (_registered st) + 1)
      timeout [] st = Some (st1, Return (ready (_kqueue st)))
    ∧ ready (_kqueue st1) = []
    ∧ handle_io (S (length (ready (_kqueue st)))) timeout st = Some (st', out).
Proof.
  destruct (poll_fifo (S (length (ready (_kqueue st))))
              (size (_registered st) + 1) timeout [] st)
    as (st1 & Hpoll & Hdry); [lia..|].
  cbn [app] in Hpoll.
  destruct (for_each (ready (_kqueue st)) dispatch st1) as [st' out] eqn:Hrun.
  exists st1, st', out. repeat split; try done.
  by rewrite (handle_io_unfold _ _ _ _ _ Hpoll), Hrun.
Qed.

End Fifo.

(** * The theorems at work on concrete managers *)

Section Concrete.

Example statistics_busy :
  statistics (busy [])
  = (busy [], Return {| tasks_waiting := 1; monitors := 1; backend := "kqueue" |}).
Proof. vm_compute. reflexivity. Qed.

(** A task waiting to read descriptor 7 is resumed with the event, and its
    key leaves the table. *)
Example scenario_wait_readable :
  ∃ st1 abort st2,
    wait_readable (RaiseCancel := unit) (FdInt 7) (idle []) = (st1, Suspended abort)
    ∧ handle_io_fifo_run timeout_0 (make_ready [READ7_ONESHOT] st1)
      = Some (st2, Return tt)
    ∧ resumptions (trace st2) = [(0%nat, READ7_ONESHOT)]
    ∧ _registered st2 !! (7, KQ_FILTER_READ) = None.
Proof. do 3 eexists. vm_compute. repeat split; reflexivity. Qed.

(** A monitor receives three events over three ticks and stays registered. *)
Example scenario_monitor_three_ticks :
  ∃ st', three_ticks (busy []) = Some (st', Return tt)
         ∧ queue_contents 0%nat (trace st') = [WRITE3; WRITE3; WRITE3]
         ∧ _registered st' !! (3, KQ_FILTER_WRITE) = Some (Queue 0%nat).
Proof. eexists. vm_compute. repeat split; reflexivity. Qed.

(** A second wait on the same descriptor fails and the first stays. *)
Example scenario_wait_twice :
  ∃ st1 abort,
    wait_readable (RaiseCancel := unit) (FdInt 9) (idle []) = (st1, Suspended abort)
    ∧ (wait_readable (RaiseCancel := unit) (FdInt 9) st1).2
      = Raised (RuntimeError duplicate_message)
    ∧ _registered (wait_readable (RaiseCancel := unit) (FdInt 9) st1).1
        !! (9, KQ_FILTER_READ) = Some (Task 0%nat).
Proof. do 2 eexists. vm_compute. repeat split; reflexivity. Qed.

Lemma oneshot_delivery_witness :
  let st1 := drained (busy []) [AControl [] 3 None [READ7_ONESHOT]] in
  ∃ st3 st' out tr_post,
    dispatch READ7_ONESHOT st1 = (st3, Return tt)
    ∧ _registered st3 = delete (key_of READ7_ONESHOT) (_registered st1)
    ∧ trace st3 = trace st1 ++ [ADelItem (key_of READ7_ONESHOT);
                                deliver (Task 5%nat) READ7_ONESHOT]
    ∧ handle_io 1 None (busy [READ7_ONESHOT]) = Some (st', out)
    ∧ trace st' = trace st3 ++ tr_post
    ∧ Forall (λ a, touches (key_of READ7_ONESHOT) a = false) tr_post
    ∧ _registered st' !! key_of READ7_ONESHOT = None.
Proof.
  intros st1.
  apply (oneshot_delivery 1 None (busy [READ7_ONESHOT]) st1
           [] READ7_ONESHOT [] st1 (Task 5%nat)).
  - vm_compute. reflexivity.
  - reflexivity.
  - vm_compute. reflexivity.
  - reflexivity.
Defined.

Lemma duplicate_registration_rejected_witness :
  wait_kevent 7 KQ_FILTER_READ (λ _ : unit, ret FAILED) (busy [])
    = (busy [], Raised (RuntimeError duplicate_message))
  ∧ monitor_kevent 7 KQ_FILTER_READ (λ _, ret tt) (busy [])
    = (busy [], Raise (RuntimeError duplicate_message)).
Proof.
  apply (duplicate_registration_rejected (busy []) 7 KQ_FILTER_READ
           (Task 5%nat)).
  vm_compute. reflexivity.
Defined.

Lemma handle_io_polling_witness :
  let st := busy [WRITE3; WRITE3; READ7_ONESHOT] in
  let st' := drained
               (MkState (FifoKqueue [])
                  (delete (7, KQ_FILTER_READ) (_registered st)) 5%nat 1%nat [])
               [AControl [] 3 None [WRITE3; WRITE3; READ7_ONESHOT];
                AControl [] 3 timeout_0 [];
                APutNowait 0%nat WRITE3; APutNowait 0%nat WRITE3;
                ADelItem (7, KQ_FILTER_READ);
                AReschedule 5%nat READ7_ONESHOT] in
  ∃ full last tr,
    (0 < 3)%nat
    ∧ Forall (λ batch, (3 ≤ length batch)%nat) full
    ∧ (length last < 3)%nat
    ∧ trace st' = trace st ++ poll_trace 3 None (full ++ [last]) ++ tr
    ∧ Forall (λ a, is_control a = false) tr
    ∧ delivered tr `prefix_of` concat full ++ last
    ∧ (Return tt = Return tt → delivered tr = concat full ++ last).
Proof.
  intros st st'.
  apply (handle_io_polling 2 None st st' (Return tt)).
  vm_compute. reflexivity.
Defined.

Lemma monitor_keeps_registration_witness :
  let st := busy [WRITE3; WRITE3; WRITE3] in
  let st1 := drained st [AControl [] 3 None [WRITE3; WRITE3; WRITE3];
                         AControl [] 3 timeout_0 []] in
  let events := [WRITE3; WRITE3; WRITE3] in
  let key := (3, KQ_FILTER_WRITE) in
  ∃ st' out tr,
    handle_io 2 None st = Some (st', out)
    ∧ _registered st' !! key = Some (Queue 0%nat)
    ∧ trace st' = trace st1 ++ tr
    ∧ (out = Return tt →
       base.filter (λ a, touches key a = true) tr
       = map (APutNowait 0%nat)
           (base.filter (λ event, key_of event = key) events))
    ∧ (Forall (λ event, key_of event = key) events → out = Return tt).
Proof.
  intros st st1 events key.
  apply (monitor_keeps_registration 2 None st st1 events key 0%nat).
  - vm_compute. reflexivity.
  - vm_compute. reflexivity.
  - repeat constructor.
Defined.

(** C4, as stated, fails: an event with the one-shot flag that goes to a
    monitor is pushed to its queue and the monitor's key leaves the table. *)
Lemma monitor_oneshot_unregistered :
  _registered (busy [WRITE3_ONESHOT]) !! (3, KQ_FILTER_WRITE)
    = Some (Queue 0%nat)
  ∧ ∃ st', handle_io 1 None (busy [WRITE3_ONESHOT]) = Some (st', Return tt)
           ∧ queue_contents 0%nat (trace st') = [WRITE3_ONESHOT]
           ∧ _registered st' !! (3, KQ_FILTER_WRITE) = None.
Proof.
  split; [vm_compute; reflexivity|].
  eexists. vm_compute. repeat split; reflexivity.
Qed.

Lemma abort_removes_iff_succeeded_witness :
  let key := (7, KQ_FILTER_READ) in
  let abort_func := λ _ : unit, ret (K := fifo_kqueue) SUCCEEDED in
  let st1 := MkState (FifoKqueue []) (<[key := Task 0%nat]> ∅) 0%nat 0%nat
               [ASetItem key (Task 0%nat)] in
  ∃ st4,
    wait_kevent_abort key abort_func tt st1 = (st4, Return SUCCEEDED)
    ∧ (SUCCEEDED = FAILED → st4 = st1)
    ∧ (SUCCEEDED = SUCCEEDED →
       _registered st4 = delete key (_registered st1)
       ∧ trace st4 = trace st1 ++ [ADelItem key])
    ∧ (_registered st4 !! key = None ↔ SUCCEEDED = SUCCEEDED).
Proof.
  intros key abort_func st1.
  apply (abort_removes_iff_succeeded (idle []) 7 KQ_FILTER_READ abort_func
           st1 (wait_kevent_abort key abort_func) eq_refl tt st1 st1 SUCCEEDED).
  - reflexivity.
  - exists (Task 0%nat). vm_compute. reflexivity.
Defined.

Lemma missing_registration_raises_witness :
  let st := idle [WRITE3] in
  let events := [WRITE3] in
  ∃ st' missing,
    handle_io 2 None st = Some (st', Raise (KeyError (key_of missing)))
    ∧ missing ∈ events
    ∧ _registered st' !! key_of missing = None.
Proof.
  intros st events.
  apply (missing_registration_raises 2 None st
           (drained st [AControl [] 1 None [WRITE3]; AControl [] 1 timeout_0 []])
           events WRITE3).
  - vm_compute. reflexivity.
  - by left.
  - vm_compute. reflexivity.
Defined.

Lemma error_messages_witness :
  (let st := idle [WRITE3] in
   let st' := drained st [AControl [] 1 None [WRITE3];
                          AControl [] 1 timeout_0 []] in
   let e := KeyError (3, KQ_FILTER_WRITE) in
   ∃ st1 events event,
     poll 2 (size (_registered st) + 1) None [] st = Some (st1, Return events)
     ∧ event ∈ events
     ∧ _registered st' !! key_of event = None
     ∧ e = KeyError (key_of event)
     ∧ message e = repr_key (key_of event)
     ∧ carries_key e (key_of event))
  ∧ (∃ e,
       (wait_kevent 7 KQ_FILTER_READ (λ _ : unit, ret FAILED) (busy [])).2
         = Raised e
       ∧ (monitor_kevent 7 KQ_FILTER_READ (λ _, ret tt) (busy [])).2 = Raise e
       ∧ message e = duplicate_message).
Proof.
  split.
  - intros st st' e.
    apply (proj1 (error_messages (RaiseCancel := unit)) 2%nat None st st' e).
    vm_compute. reflexivity.
  - apply (proj2 error_messages (busy []) 7 KQ_FILTER_READ (Task 5%nat)).
    vm_compute. reflexivity.
Defined.

(** C7, as stated, fails: the message of the duplicate-registration error
    names neither the [ident] nor the [filter] of the key. *)
Lemma duplicate_error_omits_key :
  ∃ e,
    wait_kevent 7 KQ_FILTER_READ (λ _ : unit, ret FAILED) (busy [])
      = (busy [], Raised e)
    ∧ monitor_kevent 7 KQ_FILTER_READ (λ _, ret tt) (busy [])
      = (busy [], Raise e)
    ∧ ¬ carries_key e (7, KQ_FILTER_READ).
Proof.
  exists (RuntimeError duplicate_message).
  split; [vm_compute; reflexivity|].
  split; [vm_compute; reflexivity|].
  unfold carries_key. vm_compute. discriminate.
Qed.

Lemma monitor_kevent_scope_witness :
  let st := idle [] in
  let key := (3, KQ_FILTER_WRITE) in
  let body := λ _ : QueueId, raise (A := unit) (RuntimeError "boom") in
  let inside := body 0%nat (monitoring st key) in
  let after := monitor_kevent 3 KQ_FILTER_WRITE body st in
  _registered (monitoring st key) !! key = Some (Queue 0%nat)
  ∧ _registered after.1 !! key = None
  ∧ _registered after.1 = delete key (_registered inside.1)
  ∧ (is_Some (_registered inside.1 !! key) →
     after.2 = inside.2 ∧ trace after.1 = trace inside.1 ++ [ADelItem key]).
Proof.
  intros st key body.
  apply (monitor_kevent_scope st 3 KQ_FILTER_WRITE body).
  vm_compute. reflexivity.
Defined.

Lemma wait_uses_fileno_witness :
  wait_readable (RaiseCancel := unit) (FdObject 7) (idle [])
    = submitted_and_parked (idle []) 7 KQ_FILTER_READ
  ∧ wait_readable (RaiseCancel := unit) (FdInt 7) (idle [])
    = submitted_and_parked (idle []) 7 KQ_FILTER_READ.
Proof.
  apply (proj1 (wait_uses_fileno (idle []) 7)).
  vm_compute. reflexivity.
Defined.

End Concrete.

(** * More about the dispatch loop *)

Section Dispatch.
Context {K : Type} `{!Kqueue K}.

Implicit Types (st : State K) (key : Key) (event : kevent).

Lemma dispatched_frame st event receiver :
  _registered (dispatched st event receiver) ⊆ _registered st
  ∧ running (dispatched st event receiver) = running st
  ∧ next_queue (dispatched st event receiver) = next_queue st
  ∧ _kqueue (dispatched st event receiver) = _kqueue st.
Proof.
  unfold dispatched. destruct (oneshot event); simpl; repeat split; try done.
  apply delete_subseteq.
Qed.

Lemma for_each_dispatch_frame events st st' out :
  for_each events dispatch st = (st', out) →
  _registered st' ⊆ _registered st
  ∧ running st' = running st
  ∧ next_queue st' = next_queue st
  ∧ _kqueue st' = _kqueue st.
Proof.
  revert st. induction events as [|event events IH]; intros st Hrun.
  - by inversion Hrun; subst.
  - cbn [for_each] in Hrun. unfold bind in Hrun.
    destruct (_registered st !! key_of event) as [receiver|] eqn:E.
    + rewrite (dispatch_present _ _ _ E) in Hrun.
      destruct (IH _ Hrun) as (Hsub & Hrunning & Hnext & Hkq).
      destruct (dispatched_frame st event receiver) as (Hsub' & -> & -> & ->)
        in Hrunning, Hnext, Hkq.
      repeat split; try done. by etrans.
    + rewrite (dispatch_missing _ _ E) in Hrun. by inversion Hrun; subst.
Qed.

(** X1: [handle_io] never adds a registration and never changes the receiver
    of a key: the table it leaves is a part of the table it found.  It makes
    no queue and leaves the running task alone. *)
Theorem handle_io_table_shrinks fuel timeout st st' out :
  handle_io fuel timeout st = Some (st', out) →
  _registered st' ⊆ _registered st
  ∧ running st' = running st
  ∧ next_queue st' = next_queue st.
Proof.
  intros Hrun. unfold handle_io in Hrun.
  destruct (poll fuel _ timeout [] st) as [[st1 polled]|] eqn:Hpoll; [|done].
  destruct (poll_spec _ _ _ _ _ _ _ Hpoll)
    as (full & last & -> & _ & _ & _ & Hreg & Hrunning & Hnext).
  simpl in Hrun. inversion Hrun as [Hloop]. clear Hrun.
  destruct (for_each_dispatch_frame _ _ _ _ Hloop) as (Hsub & Hr & Hn & _).
  rewrite <- Hreg, <- Hrunning, <- Hnext. done.
Qed.

(** X2: [handle_io] stops at the first polled event whose key is not in the
    table when its turn comes: the events before it have been delivered and
    stay delivered, the [KeyError] names that event's key, and the events
    polled after it are delivered to no one. *)
Theorem handle_io_stops_at_missing fuel timeout st st1 pre event post st2 :
  poll fuel (size (_registered st) + 1) timeout [] st
    = Some (st1, Return (pre ++ event :: post)) →
  for_each pre dispatch st1 = (st2, Return tt) →
  _registered st2 !! key_of event = None →
  handle_io fuel timeout st = Some (st2, Raise (KeyError (key_of event)))
  ∧ ∃ tr, trace st2 = trace st1 ++ tr ∧ delivered tr = pre.
Proof.
  intros Hpoll Hpre Hout. split.
  - rewrite (handle_io_unfold _ _ _ _ _ Hpoll), for_each_app, Hpre.
    cbn [for_each]. unfold bind. by rewrite (dispatch_missing _ _ Hout).
  - destruct (for_each_dispatch_trace _ _ _ _ Hpre) as (tr & Htr & _ & _ & Hall).
    exists tr. split; [done|]. by apply Hall.
Qed.

(** *** Events without the one-shot flag *)

Lemma route_cons_Some (table : gmap Key Receiver) event
    (events : list kevent) receiver :
  table !! key_of event = Some receiver →
  route table (event :: events) = deliver receiver event :: route table events.
Proof. intros Hin. unfold route. simpl. by rewrite Hin. Qed.

Lemma for_each_dispatch_level events st :
  Forall (λ event, oneshot event = false
                   ∧ is_Some (_registered st !! key_of event)) events →
  for_each events dispatch st
  = (MkState (_kqueue st) (_registered st) (running st) (next_queue st)
       (trace st ++ route (_registered st) events), Return tt)
  ∧ length (route (_registered st) events) = length events.
Proof.
  revert st. induction events as [|event events IH]; intros st Hall.
  - split; [|done]. simpl. unfold ret, route. simpl. rewrite app_nil_r.
    by destruct st.
  - inversion Hall as [|? ? [Hflag [receiver Hin]] Hall']; subst.
    rewrite (route_cons_Some _ _ _ _ Hin).
    cbn [for_each]. unfold bind. rewrite (dispatch_present _ _ _ Hin).
    unfold dispatched. rewrite Hflag.
    destruct (IH (MkState (_kqueue st) (_registered st) (running st)
                    (next_queue st) (trace st ++ [deliver receiver event]))
                Hall') as [Hrun Hlen].
    rewrite Hrun. simpl in *. rewrite <- app_assoc. split; [done|].
    by rewrite Hlen.
Qed.

Lemma for_each_dispatch_plain events st st' out :
  Forall (λ event, oneshot event = false) events →
  for_each events dispatch st = (st', out) →
  _registered st' = _registered st.
Proof.
  revert st. induction events as [|event events IH]; intros st Hall Hrun.
  - by inversion Hrun; subst.
  - inversion Hall as [|? ? Hflag Hall']; subst.
    cbn [for_each] in Hrun. unfold bind in Hrun.
    destruct (_registered st !! key_of event) as [receiver|] eqn:E.
    + rewrite (dispatch_present _ _ _ E) in Hrun.
      rewrite (IH _ Hall' Hrun). unfold dispatched. by rewrite Hflag.
    + rewrite (dispatch_missing _ _ E) in Hrun. by inversion Hrun; subst.
Qed.

(** X3: when no polled event carries the one-shot flag, [handle_io] leaves
    the table exactly as it found it, however it ends.  When moreover every
    polled event is for a registered key and no task is the receiver of more
    than one of them, [handle_io] returns and has handed each event to the
    receiver under its key: a task rescheduled by such an event is still
    registered afterwards. *)
Theorem handle_io_without_oneshot fuel timeout st st1 events :
  poll fuel (size (_registered st) + 1) timeout [] st
    = Some (st1, Return events) →
  Forall (λ event, oneshot event = false) events →
  ∃ st' out,
    handle_io fuel timeout st = Some (st', out)
    ∧ _registered st' = _registered st
    ∧ (Forall (λ event, is_Some (_registered st !! key_of event)) events →
       NoDup (resumptions (route (_registered st) events)).*1 →
       out = Return tt
       ∧ trace st' = trace st1 ++ route (_registered st) events
       ∧ length (route (_registered st) events) = length events).
Proof.
  intros Hpoll Hplain.
  destruct (poll_spec _ _ _ _ _ _ _ Hpoll)
    as (_ & _ & _ & _ & _ & _ & Hreg & Hrunning & Hnext).
  destruct (for_each events dispatch st1) as [st' out] eqn:Hrun.
  exists st', out. rewrite (handle_io_unfold _ _ _ _ _ Hpoll), Hrun.
  split; [done|]. split.
  - rewrite <- Hreg. by eapply for_each_dispatch_plain.
  - intros Hknown _. rewrite <- Hreg in Hknown |- *.
    destruct (for_each_dispatch_level events st1) as [Hlevel Hlen].
    { rewrite Forall_forall in *. naive_solver. }
    rewrite Hlevel in Hrun. inversion Hrun; subst. by simpl.
Qed.

(** *** One-shot keys *)

Lemma for_each_dispatch_return_absent events st st' key :
  _registered st !! key = None →
  for_each events dispatch st = (st', Return tt) →
  Forall (λ event, key_of event ≠ key) events.
Proof.
  revert st. induction events as [|event events IH]; intros st Hout Hrun;
    [done|].
  cbn [for_each] in Hrun. unfold bind in Hrun.
  destruct (_registered st !! key_of event) as [receiver|] eqn:E.
  - rewrite (dispatch_present _ _ _ E) in Hrun. constructor; [congruence|].
    apply (IH (dispatched st event receiver)); [|done].
    by apply dispatched_lookup_None.
  - by rewrite (dispatch_missing _ _ E) in Hrun.
Qed.

Lemma oneshot_keys_cons event events :
  oneshot_keys (event :: events)
  = if oneshot event then key_of event :: oneshot_keys events
    else oneshot_keys events.
Proof.
  unfold oneshot_keys. rewrite filter_cons.
  destruct (oneshot event); by rewrite ?decide_True, ?decide_False by done.
Qed.

Lemma for_each_dispatch_table events st st' :
  for_each events dispatch st = (st', Return tt) →
  NoDup (oneshot_keys events)
  ∧ ∀ key, _registered st' !! key
           = if decide (key ∈ oneshot_keys events) then None
             else _registered st !! key.
Proof.
  revert st. induction events as [|event events IH]; intros st Hrun.
  - inversion Hrun; subst. split; [constructor|].
    intros key. rewrite decide_False; [done|]. apply not_elem_of_nil.
  - cbn [for_each] in Hrun. unfold bind in Hrun.
    destruct (_registered st !! key_of event) as [receiver|] eqn:E;
      [|by rewrite (dispatch_missing _ _ E) in Hrun].
    rewrite (dispatch_present _ _ _ E) in Hrun.
    destruct (IH _ Hrun) as [Hnodup Htable].
    rewrite oneshot_keys_cons. unfold dispatched in Hrun, Htable.
    destruct (oneshot event) eqn:Hone; simpl in Htable; [|done].
    assert (key_of event ∉ oneshot_keys events) as Hfresh.
    { intros Hmem. unfold oneshot_keys in Hmem.
      apply list_elem_of_fmap in Hmem as (event' & Hkey & Hmem).
      apply list_elem_of_filter in Hmem as [_ Hmem].
      eapply for_each_dispatch_return_absent in Hrun;
        [|simpl; apply lookup_delete_eq].
      rewrite Forall_forall in Hrun. by apply (Hrun _ Hmem). }
    split; [by constructor|]. intros key. rewrite Htable.
    destruct (decide (key = key_of event)) as [->|Hne].
    + rewrite lookup_delete_eq.
      rewrite (decide_True (P := key_of event ∈ key_of event :: _))
        by (by left).
      by destruct (decide _).
    + rewrite lookup_delete_ne by done.
      destruct (decide (key ∈ oneshot_keys events)) as [Hin|Hnin].
      * rewrite decide_True; [done|]. by right.
      * rewrite decide_False; [done|].
        intros [?|?]%elem_of_cons; done.
Qed.

(** X4: a [handle_io] that returns has polled no two one-shot events of the
    same key (the second would have found the key gone), and the table it
    leaves is the table it found without the keys of the polled one-shot
    events: those keys are absent, every other key has the receiver it had. *)
Theorem handle_io_table_after fuel timeout st st1 events st' :
  poll fuel (size (_registered st) + 1) timeout [] st
    = Some (st1, Return events) →
  handle_io fuel timeout st = Some (st', Return tt) →
  NoDup (oneshot_keys events)
  ∧ ∀ key, _registered st' !! key
           = if decide (key ∈ oneshot_keys events) then None
             else _registered st !! key.
Proof.
  intros Hpoll Hrun.
  rewrite (handle_io_unfold _ _ _ _ _ Hpoll) in Hrun. inversion Hrun as [Hloop].
  destruct (poll_spec _ _ _ _ _ _ _ Hpoll)
    as (_ & _ & _ & _ & _ & _ & Hreg & _).
  rewrite <- Hreg. by apply for_each_dispatch_table.
Qed.

(** *** Which receiver gets which event *)

Lemma for_each_dispatch_route (events : list kevent) st st'
    (table : gmap Key Receiver) :
  _registered st ⊆ table →
  for_each events dispatch st = (st', Return tt) →
  ∃ tr, trace st' = trace st ++ tr
        ∧ base.filter (λ a, is_delivery a = true) tr = route table events.
Proof.
  revert st. induction events as [|event events IH]; intros st Hsub Hrun.
  - inversion Hrun; subst. exists []. by rewrite app_nil_r.
  - cbn [for_each] in Hrun. unfold bind in Hrun.
    destruct (_registered st !! key_of event) as [receiver|] eqn:E;
      [|by rewrite (dispatch_missing _ _ E) in Hrun].
    rewrite (dispatch_present _ _ _ E) in Hrun.
    rewrite (route_cons_Some table _ _ receiver)
      by (by eapply lookup_weaken).
    destruct (dispatched_frame st event receiver) as (Hsub' & _).
    destruct (IH _ (transitivity Hsub' Hsub) Hrun) as (tr & Htr & Hdel).
    assert (is_delivery (deliver receiver event) = true) as Hyes
      by (by destruct receiver).
    unfold dispatched in Htr. destruct (oneshot event); simpl in Htr.
    + exists ([ADelItem (key_of event); deliver receiver event] ++ tr).
      rewrite Htr, <- app_assoc. split; [done|]. simpl.
      rewrite filter_cons_False by done.
      rewrite filter_cons_True by done. by rewrite Hdel.
    + exists ([deliver receiver event] ++ tr).
      rewrite Htr, <- app_assoc. split; [done|]. simpl.
      rewrite filter_cons_True by done. by rewrite Hdel.
Qed.

Lemma route_cons_None (table : gmap Key Receiver) event
    (events : list kevent) :
  table !! key_of event = None →
  route table (event :: events) = route table events.
Proof. intros Hout. unfold route. simpl. by rewrite Hout. Qed.

Lemma queue_contents_cons (q : QueueId) (a : action) (tr : list action) :
  queue_contents q (a :: tr)
  = match a with
    | APutNowait q' event =>
        if decide (q' = q) then event :: queue_contents q tr
        else queue_contents q tr
    | _ => queue_contents q tr
    end.
Proof.
  destruct a; try reflexivity.
  unfold queue_contents. simpl. by destruct (decide _).
Qed.

Lemma queue_contents_app (q : QueueId) (tr1 tr2 : list action) :
  queue_contents q (tr1 ++ tr2) = queue_contents q tr1 ++ queue_contents q tr2.
Proof. apply omap_app. Qed.

Lemma queue_contents_poll_trace (q : QueueId) max_events timeout batches :
  queue_contents q (poll_trace max_events timeout batches) = [].
Proof.
  revert timeout. induction batches as [|batch batches IH]; intros timeout;
    [done|]. cbn [poll_trace]. rewrite queue_contents_cons. apply IH.
Qed.

Lemma queue_contents_deliveries (q : QueueId) (tr : list action) :
  queue_contents q (base.filter (λ a, is_delivery a = true) tr)
  = queue_contents q tr.
Proof.
  induction tr as [|a tr IH]; [done|].
  rewrite filter_cons, (queue_contents_cons q a tr).
  destruct a; cbn [is_delivery].
  all: rewrite ?decide_True, ?decide_False by done.
  all: rewrite ?queue_contents_cons, IH; done.
Qed.

Lemma queue_contents_route (q : QueueId) (table : gmap Key Receiver)
    (events : list kevent) :
  queue_contents q (route table events)
  = base.filter (λ event, table !! key_of event = Some (Queue q)) events.
Proof.
  induction events as [|event events IH]; [done|].
  rewrite filter_cons.
  destruct (table !! key_of event) as [[t|q']|] eqn:E.
  - rewrite (route_cons_Some _ _ _ _ E), queue_contents_cons. cbn [deliver].
    by rewrite decide_False by done.
  - rewrite (route_cons_Some _ _ _ _ E), queue_contents_cons. cbn [deliver].
    destruct (decide (q' = q)) as [->|Hne].
    + by rewrite decide_True, IH by done.
    + by rewrite decide_False by congruence.
  - rewrite (route_cons_None _ _ _ E). by rewrite decide_False by done.
Qed.

(** X5: a [handle_io] that returns has handed every polled event to the
    receiver that was registered under the event's key when [handle_io]
    began, in the order polled; so each queue has received, after what it
    held, exactly the polled events of the keys it was registered under. *)
Theorem handle_io_routes fuel timeout st st1 events st' :
  poll fuel (size (_registered st) + 1) timeout [] st
    = Some (st1, Return events) →
  handle_io fuel timeout st = Some (st', Return tt) →
  (∃ tr, trace st' = trace st1 ++ tr
         ∧ base.filter (λ a, is_delivery a = true) tr
           = route (_registered st) events)
  ∧ length (route (_registered st) events) = length events
  ∧ ∀ q, queue_contents q (trace st')
         = queue_contents q (trace st)
           ++ base.filter (λ event, _registered st !! key_of event
                                    = Some (Queue q)) events.
Proof.
  intros Hpoll Hrun.
  rewrite (handle_io_unfold _ _ _ _ _ Hpoll) in Hrun. inversion Hrun as [Hloop].
  destruct (poll_spec _ _ _ _ _ _ _ Hpoll)
    as (full & last & _ & _ & _ & Htr1 & Hreg & _).
  assert (_registered st1 ⊆ _registered st) as Hsub by (by rewrite Hreg).
  destruct (for_each_dispatch_route _ _ _ _ Hsub Hloop) as (tr & Htr & Hdel).
  destruct (for_each_dispatch_trace _ _ _ _ Hloop)
    as (tr' & Htr' & _ & _ & Hall).
  assert (tr' = tr) as -> by (rewrite Htr in Htr'; by simplify_list_eq).
  split; [by exists tr|]. split.
  - rewrite <- Hdel. rewrite <- (Hall eq_refl).
    clear. induction tr as [|a tr IH]; [done|].
    rewrite filter_cons. unfold delivered in *.
    destruct a; cbn [is_delivery omap list_omap];
      rewrite ?decide_True, ?decide_False by done; simpl; by rewrite ?IH.
  - intros q. rewrite Htr, Htr1, !queue_contents_app.
    rewrite queue_contents_poll_trace, app_nil_r.
    by rewrite <- (queue_contents_deliveries q tr), Hdel, queue_contents_route.
Qed.

End Dispatch.

(** * The turn of an event that goes to a monitor *)

Section MonitorTurn.
Context {K : Type} `{!Kqueue K}.

Implicit Types (st : State K) (key : Key) (event : kevent).

(** C4 (as the code has it): take any event that [handle_io] has polled and
    whose turn in the dispatch loop has come with a queue registered under
    its key.  Whatever its flags, its turn pushes the event to that queue
    with [put_nowait] and returns; the only other thing it does is the [del]
    of the key, before the push, when the event carries the one-shot flag.
    When the event does not carry the flag, the table after its turn is the
    table before it, and the queue is still registered under the key when
    [handle_io] is over, however it ends, as long as no later polled event of
    that key carries the flag; what a returning [handle_io] then does about
    the key is one further push per later event of the key, in order. *)
Theorem monitor_dispatch fuel timeout st st1 pre event post st2 q :
  poll fuel (size (_registered st) + 1) timeout [] st
    = Some (st1, Return (pre ++ event :: post)) →
  for_each pre dispatch st1 = (st2, Return tt) →
  _registered st2 !! key_of event = Some (Queue q) →
  ∃ st3 st' out tr_post,
    dispatch event st2 = (st3, Return tt)
    ∧ trace st3
      = trace st2
        ++ (if oneshot event then [ADelItem (key_of event)] else [])
        ++ [APutNowait q event]
    ∧ queue_contents q (trace st3) = queue_contents q (trace st2) ++ [event]
    ∧ (oneshot event = false →
       _registered st3 = _registered st2
       ∧ _registered st3 !! key_of event = Some (Queue q))
    ∧ handle_io fuel timeout st = Some (st', out)
    ∧ trace st' = trace st3 ++ tr_post
    ∧ (oneshot event = false →
       Forall (λ later, key_of later = key_of event → oneshot later = false)
         post →
       _registered st' !! key_of event = Some (Queue q)
       ∧ (out = Return tt →
          base.filter (λ a, touches (key_of event) a = true) tr_post
          = map (APutNowait q)
              (base.filter (λ later, key_of later = key_of event) post))).
Proof.
  intros Hpoll Hpre Hin.
  pose proof (dispatch_present _ _ _ Hin) as Hturn.
  destruct (for_each post dispatch (dispatched st2 event (Queue q)))
    as [st' out] eqn:Hpost.
  destruct (for_each_dispatch_trace _ _ _ _ Hpost) as (tr_post & Htr & _).
  assert (trace (dispatched st2 event (Queue q))
          = trace st2
            ++ (if oneshot event then [ADelItem (key_of event)] else [])
            ++ [APutNowait q event]) as Htrace.
  { unfold dispatched. by destruct (oneshot event). }
  exists (dispatched st2 event (Queue q)), st', out, tr_post.
  split; [done|]. split; [done|]. split.
  { rewrite Htrace, queue_contents_app. f_equal.
    destruct (oneshot event); cbn [app]; rewrite !queue_contents_cons;
      by rewrite decide_True. }
  split.
  { intros Hflag. unfold dispatched. rewrite Hflag. by simpl. }
  split.
  { rewrite (handle_io_unfold _ _ _ _ _ Hpoll), for_each_app, Hpre.
    cbn [for_each]. unfold bind. by rewrite Hturn, Hpost. }
  split; [done|].
  intros Hflag Hlater.
  assert (_registered (dispatched st2 event (Queue q)) !! key_of event
          = Some (Queue q)) as Hin3.
  { unfold dispatched. rewrite Hflag. by simpl. }
  destruct (for_each_dispatch_monitor post _ _ q Hin3 Hlater)
    as (st'' & out' & tr & Hrun & Hkept & Htr' & Hpush & _).
  rewrite Hpost in Hrun. inversion Hrun; subst st'' out'.
  assert (tr = tr_post) as -> by (rewrite Htr in Htr'; by simplify_list_eq).
  by split.
Qed.

End MonitorTurn.

(** * More about the front ends *)

Section FrontEnd.
Context {K : Type} `{!Kqueue K} {RaiseCancel : Type}.

Implicit Types (st : State K) (key : Key) (event : kevent).

Lemma wait_kevent_unfold st (ident0 filter0 : Z)
    (abort_func : RaiseCancel → M Abort) :
  _registered st !! (ident0, filter0) = None →
  wait_kevent ident0 filter0 abort_func st
  = (waiting st (ident0, filter0),
     Suspended (wait_kevent_abort (ident0, filter0) abort_func)).
Proof.
  intros Hout. unfold wait_kevent, bind, contains, current_task, setitem.
  rewrite Hout. by rewrite bool_decide_eq_false_2 by (by intros [? ?]).
Qed.

(** X6: registering a wait and then delivering a one-shot event for its key
    is a round trip on the table: [handle_io] removes the key, reschedules
    the task that called [wait_kevent] with that event, and leaves the table
    as it was before the wait. *)
Theorem wait_then_deliver st (ident0 filter0 : Z)
    (abort_func : RaiseCancel → M Abort) fuel timeout st2 event :
  _registered st !! (ident0, filter0) = None →
  poll fuel (size (_registered (waiting st (ident0, filter0))) + 1) timeout []
    (waiting st (ident0, filter0)) = Some (st2, Return [event]) →
  key_of event = (ident0, filter0) →
  oneshot event = true →
  (wait_kevent ident0 filter0 abort_func st).1 = waiting st (ident0, filter0)
  ∧ ∃ st',
      handle_io fuel timeout (waiting st (ident0, filter0))
        = Some (st', Return tt)
      ∧ _registered st' = _registered st
      ∧ trace st' = trace st2 ++ [ADelItem (ident0, filter0);
                                  AReschedule (running st) event].
Proof.
  intros Hout Hpoll Hkey Hone.
  split; [by rewrite wait_kevent_unfold|].
  destruct (poll_spec _ _ _ _ _ _ _ Hpoll)
    as (_ & _ & _ & _ & _ & _ & Hreg & Hrunning & Hnext).
  assert (_registered st2 !! key_of event = Some (Task (running st))) as Hin.
  { rewrite Hreg, Hkey. apply lookup_insert_eq. }
  rewrite (handle_io_unfold _ _ _ _ _ Hpoll).
  cbn [for_each]. unfold bind. rewrite (dispatch_present _ _ _ Hin).
  unfold dispatched, ret. rewrite Hone, Hkey, Hreg. eexists.
  split; [done|]. simpl. split; [|done]. by apply delete_insert_id.
Qed.

(** *** Cancelling [wait_readable] and [wait_writable] *)

(** X7: cancelling a wait made by [_wait_common] while its key is still
    registered submits the delete of the interest in [(fd, filter)] to the
    kernel queue, removes the key from the table and reports [SUCCEEDED];
    when nothing else changed the table in between, the table is again what
    it was before the wait. *)
Theorem wait_common_cancel st (fd : fd_arg) (flt : Z)
    (raise_cancel : RaiseCancel) st2 receiver :
  _registered st !! (fd_ident fd, flt) = None →
  _registered st2 !! (fd_ident fd, flt) = Some receiver →
  ∃ st1 abort kq batch,
    _wait_common fd flt st = (st1, Suspended abort)
    ∧ control (_kqueue st2) (delete_interest (fd_ident fd) flt) 0 None
      = (kq, batch)
    ∧ abort raise_cancel st2
      = (MkState kq (delete (fd_ident fd, flt) (_registered st2))
           (running st2) (next_queue st2)
           (trace st2 ++ [AControl (delete_interest (fd_ident fd) flt) 0 None batch;
                          ADelItem (fd_ident fd, flt)]),
         Return SUCCEEDED)
    ∧ (_registered st2 = _registered st1 →
       delete (fd_ident fd, flt) (_registered st2) = _registered st).
Proof.
  intros Hout Hin. rewrite (_wait_common_unfold _ _ _ Hout).
  unfold submitted_and_parked.
  destruct (control (_kqueue st) _ 0 None) as [kq1 batch1].
  destruct (control (_kqueue st2) (delete_interest (fd_ident fd) flt) 0 None)
    as [kq batch] eqn:Hctl.
  eexists _, _, kq, batch. split; [done|]. split; [done|]. split.
  - unfold wait_kevent_abort, _wait_common_abort, bind, kqueue_control.
    fold (delete_interest (fd_ident fd) flt). rewrite Hctl.
    unfold ret, delitem, log. simpl. rewrite Hin. simpl.
    by rewrite <- app_assoc.
  - intros ->. simpl. by apply delete_insert_id.
Qed.

(** X8: when a one-shot event for the key of a parked [wait_kevent] has been
    dispatched by [handle_io], the key has left the table; if the abort
    callback is called after that and [abort_func] returns [SUCCEEDED]
    without bringing the key back, the callback does not return: the [del]
    after [abort_func] fails and [KeyError] for the key comes out, with the
    manager as [abort_func] left it. *)
Theorem abort_after_delivery st (ident0 filter0 : Z)
    (abort_func : RaiseCancel → M Abort) fuel timeout st2 event :
  _registered st !! (ident0, filter0) = None →
  poll fuel (size (_registered (waiting st (ident0, filter0))) + 1) timeout []
    (waiting st (ident0, filter0)) = Some (st2, Return [event]) →
  key_of event = (ident0, filter0) →
  oneshot event = true →
  ∃ abort st',
    wait_kevent ident0 filter0 abort_func st
      = (waiting st (ident0, filter0), Suspended abort)
    ∧ handle_io fuel timeout (waiting st (ident0, filter0))
      = Some (st', Return tt)
    ∧ _registered st' !! (ident0, filter0) = None
    ∧ ∀ raise_cancel st3,
        abort_func raise_cancel st' = (st3, Return SUCCEEDED) →
        _registered st3 !! (ident0, filter0) = None →
        abort raise_cancel st' = (st3, Raise (KeyError (ident0, filter0))).
Proof.
  intros Hout Hpoll Hkey Hone.
  destruct (poll_spec _ _ _ _ _ _ _ Hpoll)
    as (_ & _ & _ & _ & _ & _ & Hreg & _).
  assert (_registered st2 !! key_of event = Some (Task (running st))) as Hin.
  { rewrite Hreg, Hkey. apply lookup_insert_eq. }
  exists (wait_kevent_abort (ident0, filter0) abort_func),
    (dispatched st2 event (Task (running st))).
  split; [by apply wait_kevent_unfold|]. split.
  { rewrite (handle_io_unfold _ _ _ _ _ Hpoll).
    cbn [for_each]. unfold bind. by rewrite (dispatch_present _ _ _ Hin). }
  split.
  { unfold dispatched. rewrite Hone, Hkey. simpl. apply lookup_delete_eq. }
  intros raise_cancel st3 Hfunc Hgone.
  unfold wait_kevent_abort, bind. rewrite Hfunc.
  unfold delitem. by rewrite Hgone.
Qed.

(** X9: [_wait_common] submits the one-shot interest to the kernel queue
    before it looks at the table: when the key is already registered the
    call raises the duplicate-registration error with the table unchanged,
    and the kernel queue has received the change list all the same. *)
Theorem wait_common_duplicate st (fd : fd_arg) (flt : Z) receiver :
  _registered st !! (fd_ident fd, flt) = Some receiver →
  ∃ kq batch,
    control (_kqueue st) (oneshot_interest (fd_ident fd) flt) 0 None
      = (kq, batch)
    ∧ _wait_common (RaiseCancel := RaiseCancel) fd flt st
      = (MkState kq (_registered st) (running st) (next_queue st)
           (trace st ++ [AControl (oneshot_interest (fd_ident fd) flt) 0 None batch]),
         Raised (RuntimeError duplicate_message)).
Proof.
  intros Hin. unfold _wait_common, kqueue_control. fold (fd_ident fd).
  fold (oneshot_interest (fd_ident fd) flt).
  destruct (control (_kqueue st) _ 0 None) as [kq batch].
  exists kq, batch. split; [done|].
  unfold wait_kevent, bind, contains, raise, log. simpl.
  rewrite Hin. by rewrite bool_decide_eq_true_2 by eauto.
Qed.

(** *** Leaving the scope of [monitor_kevent] *)

(** X10: [monitor_kevent] is a round trip on the table when the block leaves
    the table as it found it: after the [with] statement the table is what it
    was before, and the statement returns or raises what the block did. *)
Theorem monitor_kevent_restores st (ident0 filter0 : Z) {A}
    (body : QueueId → M A) :
  _registered st !! (ident0, filter0) = None →
  _registered (body (next_queue st) (monitoring st (ident0, filter0))).1
    = _registered (monitoring st (ident0, filter0)) →
  _registered (monitor_kevent ident0 filter0 body st).1 = _registered st
  ∧ (monitor_kevent ident0 filter0 body st).2
    = (body (next_queue st) (monitoring st (ident0, filter0))).2.
Proof.
  intros Hout Hsame. rewrite monitor_kevent_unfold by done.
  unfold try_finally.
  destruct (body (next_queue st) (monitoring st (ident0, filter0)))
    as [st1 out]. simpl in Hsame.
  unfold delitem. rewrite Hsame. simpl. rewrite lookup_insert_eq. simpl.
  split; [|done]. by apply delete_insert_id.
Qed.

(** X11: when the block has lost the monitor's key (a one-shot event for the
    key was dispatched inside it, say), the [del] of the [finally] clause
    fails: the [with] statement raises [KeyError] for the key, also when the
    block itself returned, and leaves the manager as the block left it. *)
Theorem monitor_kevent_exit_KeyError st (ident0 filter0 : Z) {A}
    (body : QueueId → M A) :
  _registered st !! (ident0, filter0) = None →
  _registered (body (next_queue st) (monitoring st (ident0, filter0))).1
    !! (ident0, filter0) = None →
  monitor_kevent ident0 filter0 body st
  = ((body (next_queue st) (monitoring st (ident0, filter0))).1,
     Raise (KeyError (ident0, filter0))).
Proof.
  intros Hout Hgone. rewrite monitor_kevent_unfold by done.
  unfold try_finally.
  destruct (body (next_queue st) (monitoring st (ident0, filter0)))
    as [st1 out]. simpl in Hgone.
  unfold delitem. by rewrite Hgone.
Qed.

(** X12: monitoring a key inside the block of a monitor of the same key
    fails with the duplicate-registration error before the inner block
    runs; the outer scope still removes its registration, so the table ends
    as it began, and the one queue made for the outer monitor is spent. *)
Theorem monitor_kevent_nested_duplicate st (ident0 filter0 : Z) {A}
    (body : QueueId → M A) :
  _registered st !! (ident0, filter0) = None →
  monitor_kevent ident0 filter0 (λ _, monitor_kevent ident0 filter0 body) st
  = (MkState (_kqueue st) (_registered st) (running st) (S (next_queue st))
       (trace st ++ [ANewQueue (next_queue st);
                     ASetItem (ident0, filter0) (Queue (next_queue st));
                     ADelItem (ident0, filter0)]),
     Raise (RuntimeError duplicate_message)).
Proof.
  intros Hout. rewrite monitor_kevent_unfold by done.
  unfold try_finally, monitor_kevent at 1, bind, contains, raise.
  assert (_registered (monitoring st (ident0, filter0)) !! (ident0, filter0)
          = Some (Queue (next_queue st))) as Hin by apply lookup_insert_eq.
  rewrite Hin. rewrite bool_decide_eq_true_2 by eauto.
  unfold delitem. rewrite Hin. unfold log, monitoring. simpl.
  rewrite <- app_assoc. simpl. by rewrite delete_insert_id.
Qed.

(** *** [statistics] and registrations *)

Lemma statistics_run st :
  (statistics st).2
  = Return (Mk_KqueueStatistics (waiters (_registered st))
              (monitor_receivers (_registered st)) "kqueue").
Proof.
  unfold statistics. rewrite count_loop. simpl.
  unfold waiters, monitor_receivers. by rewrite !size_filter_values.
Qed.

Lemma count_insert (b : bool) (table : gmap Key Receiver) key receiver :
  table !! key = None →
  size (base.filter (λ kv : Key * Receiver, is_task kv.2 = b)
          (<[key := receiver]> table))
  = if decide (is_task receiver = b)
    then S (size (base.filter (λ kv : Key * Receiver, is_task kv.2 = b) table))
    else size (base.filter (λ kv : Key * Receiver, is_task kv.2 = b) table).
Proof.
  intros Hout.
  assert (base.filter (λ kv : Key * Receiver, is_task kv.2 = b) table !! key
          = None) as Hnone by (apply map_lookup_filter_None_2; by left).
  destruct (decide (is_task receiver = b)) as [Hr|Hr].
  - rewrite map_filter_insert_True by done.
    by rewrite map_size_insert_None.
  - rewrite map_filter_insert_False by done. by rewrite delete_id.
Qed.

(** X13: [statistics] follows registrations: once [wait_kevent] has
    registered a task under a new key it reports one more waiting task and
    the same number of monitors; called as the block of
    [with self.monitor_kevent(ident, filter)] for a new key it reports one
    more monitor and the same number of waiting tasks, and once that [with]
    statement is left it reports again what it reported before. *)
Theorem statistics_tracks_registration st (ident0 filter0 : Z)
    (abort_func : RaiseCancel → M Abort) s :
  _registered st !! (ident0, filter0) = None →
  (statistics st).2 = Return s →
  (statistics (wait_kevent ident0 filter0 abort_func st).1).2
    = Return (Mk_KqueueStatistics (S (tasks_waiting s)) (monitors s) "kqueue")
  ∧ (monitor_kevent ident0 filter0 (λ _, statistics) st).2
    = Return (Mk_KqueueStatistics (tasks_waiting s) (S (monitors s)) "kqueue")
  ∧ (statistics (monitor_kevent ident0 filter0 (λ _, statistics) st).1).2
    = Return s.
Proof.
  intros Hout Hs. rewrite statistics_run in Hs. inversion Hs; subst. simpl.
  split.
  { rewrite wait_kevent_unfold by done. rewrite statistics_run.
    unfold waiters, monitor_receivers, waiting. simpl.
    rewrite !count_insert by done. done. }
  rewrite monitor_kevent_unfold by done. unfold try_finally.
  assert (statistics (monitoring st (ident0, filter0))
          = (monitoring st (ident0, filter0),
             (statistics (monitoring st (ident0, filter0))).2)) as Hinside.
  { by unfold statistics; destruct (foldl _ _ _). }
  rewrite Hinside. unfold delitem.
  assert (_registered (monitoring st (ident0, filter0)) !! (ident0, filter0)
          = Some (Queue (next_queue st))) as Hin by apply lookup_insert_eq.
  rewrite Hin. cbn [fst snd]. split.
  - rewrite statistics_run.
    unfold waiters, monitor_receivers, monitoring. simpl.
    rewrite !count_insert by done. done.
  - rewrite statistics_run. unfold log, monitoring. simpl.
    by rewrite delete_insert_id.
Qed.

(** X14: the two counts of [statistics] add up to the number of entries of
    the table. *)
Theorem statistics_total st s :
  (statistics st).2 = Return s →
  (tasks_waiting s + monitors s)%nat = size (_registered st).
Proof.
  intros Hs. rewrite statistics_run in Hs. inversion Hs; subst. simpl.
  apply waiters_plus_monitors.
Qed.

End FrontEnd.

(** * Draining a kernel queue that runs dry *)

Section Drain.
Implicit Types (st : State fifo_kqueue).

(** X15: on a kernel queue that holds a list of ready events and hands out
    the oldest [max_events] of them per call, [handle_io] comes to an end
    within one call more than there are events, whatever their number is
    next to the number of registrations: it has polled every ready event in
    order, the kernel queue is empty afterwards, and when it returns every
    one of them has been delivered. *)
Theorem handle_io_drains timeout st :
  ∃ st1 st' out tr,
    poll (S (length (ready (_kqueue st)))) (size (_registered st) + 1)
      timeout [] st = Some (st1, Return (ready (_kqueue st)))
    ∧ handle_io (S (length (ready (_kqueue st)))) timeout st = Some (st', out)
    ∧ ready (_kqueue st') = []
    ∧ trace st' = trace st1 ++ tr
    ∧ delivered tr `prefix_of` ready (_kqueue st)
    ∧ (out = Return tt → delivered tr = ready (_kqueue st)).
Proof.
  destruct (poll_fifo (S (length (ready (_kqueue st))))
              (size (_registered st) + 1) timeout [] st)
    as (st1 & Hpoll & Hdry); [lia..|].
  cbn [app] in Hpoll.
  destruct (for_each (ready (_kqueue st)) dispatch st1) as [st' out] eqn:Hrun.
  destruct (for_each_dispatch_trace _ _ _ _ Hrun)
    as (tr & Htr & _ & Hpre & Hall).
  destruct (for_each_dispatch_frame _ _ _ _ Hrun) as (_ & _ & _ & Hkq).
  exists st1, st', out, tr. split; [done|].
  rewrite (handle_io_unfold _ _ _ _ _ Hpoll), Hrun, Hkq.
  by repeat split.
Qed.

End Drain.

(** * The further theorems at work *)

Section MoreConcrete.

Lemma handle_io_table_shrinks_witness :
  _registered storm_handled ⊆ _registered (busy storm)
  ∧ running storm_handled = running (busy storm)
  ∧ next_queue storm_handled = next_queue (busy storm).
Proof.
  apply (handle_io_table_shrinks 2 None (busy storm) storm_handled (Return tt)).
  vm_compute. reflexivity.
Defined.

Lemma handle_io_stops_at_missing_witness :
  let st := busy [READ7_ONESHOT; READ7_ONESHOT] in
  let st1 := drained st [AControl [] 3 None [READ7_ONESHOT; READ7_ONESHOT]] in
  let st2 := MkState (FifoKqueue []) (delete (7, KQ_FILTER_READ) (_registered st))
               5%nat 1%nat
               (trace st1 ++ [ADelItem (7, KQ_FILTER_READ);
                              AReschedule 5%nat READ7_ONESHOT]) in
  handle_io 1 None st = Some (st2, Raise (KeyError (key_of READ7_ONESHOT)))
  ∧ ∃ tr, trace st2 = trace st1 ++ tr ∧ delivered tr = [READ7_ONESHOT].
Proof.
  intros st st1 st2.
  apply (handle_io_stops_at_missing 1 None st st1
           [READ7_ONESHOT] READ7_ONESHOT [] st2).
  - vm_compute. reflexivity.
  - vm_compute. reflexivity.
  - vm_compute. reflexivity.
Defined.

Lemma handle_io_without_oneshot_witness :
  let st := busy [WRITE3; READ7; WRITE3] in
  let st1 := drained st [AControl [] 3 None [WRITE3; READ7; WRITE3];
                         AControl [] 3 timeout_0 []] in
  ∃ st' out,
    handle_io 2 None st = Some (st', out)
    ∧ _registered st' = _registered st
    ∧ out = Return tt
    ∧ trace st' = trace st1 ++ [APutNowait 0%nat WRITE3;
                                AReschedule 5%nat READ7;
                                APutNowait 0%nat WRITE3].
Proof.
  intros st st1.
  destruct (handle_io_without_oneshot 2 None st st1 [WRITE3; READ7; WRITE3])
    as (st' & out & Hrun & Hreg & Hret).
  - vm_compute. reflexivity.
  - repeat constructor.
  - exists st', out. split; [exact Hrun|]. split; [exact Hreg|].
    destruct Hret as (Hout & Htr & _).
    + repeat constructor; by eexists.
    + vm_compute. apply NoDup_singleton.
    + split; [exact Hout|exact Htr].
Defined.

Lemma handle_io_table_after_witness :
  NoDup (oneshot_keys storm)
  ∧ ∀ key, _registered storm_handled !! key
           = if decide (key ∈ oneshot_keys storm) then None
             else _registered (busy storm) !! key.
Proof.
  apply (handle_io_table_after 2 None (busy storm) storm_polled storm
           storm_handled).
  - vm_compute. reflexivity.
  - vm_compute. reflexivity.
Defined.

Lemma handle_io_routes_witness :
  (∃ tr, trace storm_handled = trace storm_polled ++ tr
         ∧ base.filter (λ a, is_delivery a = true) tr
           = route (_registered (busy storm)) storm)
  ∧ length (route (_registered (busy storm)) storm) = length storm
  ∧ ∀ q, queue_contents q (trace storm_handled)
         = queue_contents q (trace (busy storm))
           ++ base.filter (λ event, _registered (busy storm) !! key_of event
                                    = Some (Queue q)) storm.
Proof.
  apply (handle_io_routes 2 None (busy storm) storm_polled storm storm_handled).
  - vm_compute. reflexivity.
  - vm_compute. reflexivity.
Defined.

Lemma wait_then_deliver_witness :
  let st := idle [READ7_ONESHOT] in
  let key := (7, KQ_FILTER_READ) in
  let abort_func := λ _ : unit, ret (K := fifo_kqueue) FAILED in
  let st2 := drained (waiting st key)
               (trace (waiting st key) ++ [AControl [] 2 None [READ7_ONESHOT]]) in
  (wait_kevent 7 KQ_FILTER_READ abort_func st).1 = waiting st key
  ∧ ∃ st',
      handle_io 1 None (waiting st key) = Some (st', Return tt)
      ∧ _registered st' = _registered st
      ∧ trace st' = trace st2 ++ [ADelItem key; AReschedule (running st) READ7_ONESHOT].
Proof.
  intros st key abort_func st2.
  apply (wait_then_deliver st 7 KQ_FILTER_READ abort_func 1 None st2
           READ7_ONESHOT).
  - vm_compute. reflexivity.
  - vm_compute. reflexivity.
  - reflexivity.
  - reflexivity.
Defined.

Lemma wait_common_cancel_witness :
  let st := idle [] in
  let st2 := (_wait_common (RaiseCancel := unit) (FdObject 7) KQ_FILTER_READ st).1 in
  ∃ st1 abort kq batch,
    _wait_common (FdObject 7) KQ_FILTER_READ st = (st1, Suspended abort)
    ∧ control (_kqueue st2) (delete_interest 7 KQ_FILTER_READ) 0 None
      = (kq, batch)
    ∧ abort tt st2
      = (MkState kq (delete (7, KQ_FILTER_READ) (_registered st2))
           (running st2) (next_queue st2)
           (trace st2 ++ [AControl (delete_interest 7 KQ_FILTER_READ) 0 None batch;
                          ADelItem (7, KQ_FILTER_READ)]),
         Return SUCCEEDED)
    ∧ (_registered st2 = _registered st1 →
       delete (7, KQ_FILTER_READ) (_registered st2) = _registered st).
Proof.
  intros st st2.
  apply (wait_common_cancel st (FdObject 7) KQ_FILTER_READ tt st2 (Task 0%nat)).
  - vm_compute. reflexivity.
  - vm_compute. reflexivity.
Defined.

Lemma abort_after_delivery_witness :
  let st := idle [READ7_ONESHOT] in
  let key := (7, KQ_FILTER_READ) in
  let abort_func := λ _ : unit, ret (K := fifo_kqueue) SUCCEEDED in
  ∃ abort st',
    wait_kevent 7 KQ_FILTER_READ abort_func st = (waiting st key, Suspended abort)
    ∧ handle_io 1 None (waiting st key) = Some (st', Return tt)
    ∧ resumptions (trace st') = [(0%nat, READ7_ONESHOT)]
    ∧ _registered st' !! key = None
    ∧ abort tt st' = (st', Raise (KeyError key)).
Proof.
  intros st key abort_func.
  destruct (abort_after_delivery st 7 KQ_FILTER_READ abort_func 1 None
              (drained (waiting st key)
                 (trace (waiting st key) ++ [AControl [] 2 None [READ7_ONESHOT]]))
              READ7_ONESHOT)
    as (abort & st' & Hwait & Hrun & Hgone & Habort).
  - vm_compute. reflexivity.
  - vm_compute. reflexivity.
  - reflexivity.
  - reflexivity.
  - exists abort, st'. split; [exact Hwait|]. split; [exact Hrun|].
    split.
    { vm_compute in Hrun. injection Hrun as <-. vm_compute. reflexivity. }
    split; [exact Hgone|].
    apply Habort; [reflexivity|exact Hgone].
Defined.

Lemma wait_common_duplicate_witness :
  let st := busy [] in
  ∃ kq batch,
    control (_kqueue st) (oneshot_interest 7 KQ_FILTER_READ) 0 None = (kq, batch)
    ∧ _wait_common (RaiseCancel := unit) (FdInt 7) KQ_FILTER_READ st
      = (MkState kq (_registered st) (running st) (next_queue st)
           (trace st ++ [AControl (oneshot_interest 7 KQ_FILTER_READ) 0 None batch]),
         Raised (RuntimeError duplicate_message)).
Proof.
  intros st.
  apply (wait_common_duplicate st (FdInt 7) KQ_FILTER_READ (Task 5%nat)).
  vm_compute. reflexivity.
Defined.

Lemma monitor_kevent_restores_witness :
  let st := busy [] in
  let body := λ _ : QueueId, raise (K := fifo_kqueue) (A := unit)
                               (RuntimeError "boom") in
  _registered (monitor_kevent 9 KQ_FILTER_READ body st).1 = _registered st
  ∧ (monitor_kevent 9 KQ_FILTER_READ body st).2
    = (body (next_queue st) (monitoring st (9, KQ_FILTER_READ))).2.
Proof.
  intros st body.
  apply (monitor_kevent_restores st 9 KQ_FILTER_READ body).
  - vm_compute. reflexivity.
  - reflexivity.
Defined.

Lemma monitor_kevent_exit_KeyError_witness :
  let st := idle [WRITE3_ONESHOT] in
  let body := λ _ : QueueId, tick in
  (body 0%nat (monitoring st (3, KQ_FILTER_WRITE))).2 = Return tt
  ∧ monitor_kevent 3 KQ_FILTER_WRITE body st
    = ((body (next_queue st) (monitoring st (3, KQ_FILTER_WRITE))).1,
       Raise (KeyError (3, KQ_FILTER_WRITE))).
Proof.
  intros st body. split; [vm_compute; reflexivity|].
  apply (monitor_kevent_exit_KeyError st 3 KQ_FILTER_WRITE body).
  - vm_compute. reflexivity.
  - vm_compute. reflexivity.
Defined.

Lemma monitor_kevent_nested_duplicate_witness :
  let st := idle [] in
  let body := λ _ : QueueId, ret (K := fifo_kqueue) tt in
  monitor_kevent 3 KQ_FILTER_WRITE (λ _, monitor_kevent 3 KQ_FILTER_WRITE body) st
  = (MkState (_kqueue st) (_registered st) (running st) (S (next_queue st))
       (trace st ++ [ANewQueue (next_queue st);
                     ASetItem (3, KQ_FILTER_WRITE) (Queue (next_queue st));
                     ADelItem (3, KQ_FILTER_WRITE)]),
     Raise (RuntimeError duplicate_message)).
Proof.
  intros st body.
  apply (monitor_kevent_nested_duplicate st 3 KQ_FILTER_WRITE body).
  vm_compute. reflexivity.
Defined.

Lemma statistics_tracks_registration_witness :
  let st := busy [] in
  let abort_func := λ _ : unit, ret (K := fifo_kqueue) FAILED in
  (statistics (wait_kevent 9 KQ_FILTER_READ abort_func st).1).2
    = Return (Mk_KqueueStatistics 2 1 "kqueue")
  ∧ (monitor_kevent 9 KQ_FILTER_READ (λ _, statistics) st).2
    = Return (Mk_KqueueStatistics 1 2 "kqueue")
  ∧ (statistics (monitor_kevent 9 KQ_FILTER_READ (λ _, statistics) st).1).2
    = Return (Mk_KqueueStatistics 1 1 "kqueue").
Proof.
  intros st abort_func.
  apply (statistics_tracks_registration st 9 KQ_FILTER_READ abort_func
           (Mk_KqueueStatistics 1 1 "kqueue")).
  - vm_compute. reflexivity.
  - vm_compute. reflexivity.
Defined.

Lemma statistics_total_witness :
  (1 + 1)%nat = size (_registered (busy [])).
Proof.
  apply (statistics_total (busy []) (Mk_KqueueStatistics 1 1 "kqueue")).
  vm_compute. reflexivity.
Defined.

Lemma monitor_dispatch_witness :
  (let st2 := storm_polled in
   let event := WRITE3 in
   let post := [WRITE3; READ7_ONESHOT] in
   ∃ st3 st' out tr_post,
     dispatch event st2 = (st3, Return tt)
     ∧ trace st3
       = trace st2
         ++ (if oneshot event then [ADelItem (key_of event)] else [])
         ++ [APutNowait 0%nat event]
     ∧ queue_contents 0%nat (trace st3)
       = queue_contents 0%nat (trace st2) ++ [event]
     ∧ (oneshot event = false →
        _registered st3 = _registered st2
        ∧ _registered st3 !! key_of event = Some (Queue 0%nat))
     ∧ handle_io 2 None (busy storm) = Some (st', out)
     ∧ trace st' = trace st3 ++ tr_post
     ∧ (oneshot event = false →
        Forall (λ later, key_of later = key_of event → oneshot later = false)
          post →
        _registered st' !! key_of event = Some (Queue 0%nat)
        ∧ (out = Return tt →
           base.filter (λ a, touches (key_of event) a = true) tr_post
           = map (APutNowait 0%nat)
               (base.filter (λ later, key_of later = key_of event) post))))
  ∧ (let st := busy [WRITE3; WRITE3_ONESHOT] in
     let st1 := drained st [AControl [] 3 None [WRITE3; WRITE3_ONESHOT]] in
     let st2 := drained st (trace st1 ++ [APutNowait 0%nat WRITE3]) in
     let event := WRITE3_ONESHOT in
     ∃ st3 st' out tr_post,
       dispatch event st2 = (st3, Return tt)
       ∧ trace st3
         = trace st2
           ++ (if oneshot event then [ADelItem (key_of event)] else [])
           ++ [APutNowait 0%nat event]
       ∧ queue_contents 0%nat (trace st3)
         = queue_contents 0%nat (trace st2) ++ [event]
       ∧ (oneshot event = false →
          _registered st3 = _registered st2
          ∧ _registered st3 !! key_of event = Some (Queue 0%nat))
       ∧ handle_io 1 None st = Some (st', out)
       ∧ trace st' = trace st3 ++ tr_post
       ∧ (oneshot event = false →
          Forall (λ later, key_of later = key_of event → oneshot later = false)
            [] →
          _registered st' !! key_of event = Some (Queue 0%nat)
          ∧ (out = Return tt →
             base.filter (λ a, touches (key_of event) a = true) tr_post
             = map (APutNowait 0%nat)
                 (base.filter (λ later, key_of later = key_of event) [])))).
Proof.
  split.
  - intros st2 event post.
    apply (monitor_dispatch 2 None (busy storm) storm_polled [] event post
             st2 0%nat).
    + vm_compute. reflexivity.
    + reflexivity.
    + vm_compute. reflexivity.
  - intros st st1 st2 event.
    apply (monitor_dispatch 1 None st st1 [WRITE3] event [] st2 0%nat).
    + vm_compute. reflexivity.
    + vm_compute. reflexivity.
    + vm_compute. reflexivity.
Defined.

End MoreConcrete.
